(** * Sankey-Diagram: patient condition journeys

    A shallow embedding of [sankey.py].  The three functions of the script
    are embedded one by one:

    - [process_conditions_data]: the pass over the CSV rows that records,
      for two consecutive rows of one patient, the number of days between
      their start dates under the pair of their descriptions;
    - [calculate_total_and_average_time]: the total and the average of
      every list of differences;
    - [create_sankey_diagram]: the labels, the source, target and value
      arrays and the colours that are handed to plotly.

    Python dictionaries keep their keys in insertion order and the script
    relies on it (colours and label indices follow it), so a dictionary
    whose order matters is an association list with unique keys, new keys
    added at the end.  [label_map], which is only looked up, is a [gmap].
    Python integers are unbounded: [Z].  An exception is a value of
    [exn] in the error monad [result]. *)

From Stdlib Require Import ZArith QArith Ascii String.
From stdpp Require Import gmap strings list fin_maps.

Local Open Scope Z_scope.

(** ** Exceptions *)

Inductive exn : Type :=
  | ValueError          (* datetime.fromisoformat on a malformed text *)
  | ZeroDivisionError   (* x / 0 *)
  | OverflowError       (* a quotient beyond the range of float *)
  | KeyError            (* d[k] with k not in d *)
  | IndexError.         (* l[i] with i out of range *)

Inductive result (A : Type) : Type :=
  | Ok (a : A)
  | Raise (e : exn).
Arguments Ok {A} a.
Arguments Raise {A} e.

Definition bind {A B : Type} (m : result A) (k : A -> result B) : result B :=
  match m with
  | Ok a => k a
  | Raise e => Raise e
  end.

Notation "'let*' x := m 'in' k" := (bind m (fun x => k))
  (at level 10, x name, m at level 100, k at level 200).

Definition of_option {A : Type} (e : exn) (o : option A) : result A :=
  match o with
  | Some a => Ok a
  | None => Raise e
  end.

(** ** Dates and times: the part of Python's [datetime] the script uses *)

Module Datetime.

(** A naive [datetime.datetime]. *)
Record datetime : Type := mk_datetime {
  year : Z; month : Z; day : Z;
  hour : Z; minute : Z; second : Z; microsecond : Z
}.

(** A [datetime.timedelta], always normalised by its constructor:
    [0 <= seconds < 86400] and [0 <= microseconds < 1000000], the sign
    is carried by [days] alone. *)
Record timedelta : Type := mk_timedelta {
  days : Z; seconds : Z; microseconds : Z
}.

Definition is_leap (y : Z) : bool :=
  (y mod 4 =? 0) && (negb (y mod 100 =? 0) || (y mod 400 =? 0)).

Definition days_before_year (y : Z) : Z :=
  let y' := y - 1 in y' * 365 + y' / 4 - y' / 100 + y' / 400.

(** Months count from 1: both tables carry a placeholder at index 0. *)
Definition DAYS_IN_MONTH : list Z :=
  [-1; 31; 28; 31; 30; 31; 30; 31; 31; 30; 31; 30; 31].

Definition DAYS_BEFORE_MONTH : list Z :=
  [-1; 0; 31; 59; 90; 120; 151; 181; 212; 243; 273; 304; 334].

Definition month_entry (tbl : list Z) (m : Z) : Z :=
  nth (Z.to_nat m) tbl 0.

Definition days_in_month (y m : Z) : Z :=
  if (m =? 2) && is_leap y then 29 else month_entry DAYS_IN_MONTH m.

Definition days_before_month (y m : Z) : Z :=
  month_entry DAYS_BEFORE_MONTH m + (if (2 <? m) && is_leap y then 1 else 0).

Definition ymd2ord (y m d : Z) : Z :=
  days_before_year y + days_before_month y m + d.

Definition toordinal (t : datetime) : Z :=
  ymd2ord (year t) (month t) (day t).

(** The checks of the [datetime] constructor: a value outside these
    ranges is never built (the constructor raises ValueError). *)
Definition valid (t : datetime) : Prop :=
  1 <= year t <= 9999 /\ 1 <= month t <= 12 /\
  1 <= day t <= days_in_month (year t) (month t) /\
  0 <= hour t <= 23 /\ 0 <= minute t <= 59 /\ 0 <= second t <= 59 /\
  0 <= microsecond t <= 999999.

Definition validb (t : datetime) : bool :=
  (1 <=? year t) && (year t <=? 9999) && (1 <=? month t) && (month t <=? 12) &&
  (1 <=? day t) && (day t <=? days_in_month (year t) (month t)) &&
  (0 <=? hour t) && (hour t <=? 23) && (0 <=? minute t) && (minute t <=? 59) &&
  (0 <=? second t) && (second t <=? 59) &&
  (0 <=? microsecond t) && (microsecond t <=? 999999).

(** [timedelta(days, seconds, microseconds)] on integers: the carries
    are taken with [divmod], which rounds towards minus infinity. *)
Definition new_timedelta (d s us : Z) : timedelta :=
  let carry_s := us / 1000000 in
  let s' := s + carry_s in
  {| days := d + s' / 86400;
     seconds := s' mod 86400;
     microseconds := us mod 1000000 |}.

(** [t2 - t1] (datetime.__sub__ for two naive values). *)
Definition sub (t2 t1 : datetime) : timedelta :=
  let days2 := toordinal t2 in
  let days1 := toordinal t1 in
  let secs2 := second t2 + minute t2 * 60 + hour t2 * 3600 in
  let secs1 := second t1 + minute t1 * 60 + hour t1 * 3600 in
  new_timedelta (days2 - days1) (secs2 - secs1)
                (microsecond t2 - microsecond t1).

(** [timedelta._to_microseconds]. *)
Definition to_microseconds (d : timedelta) : Z :=
  (days d * 86400 + seconds d) * 1000000 + microseconds d.

(** Comparison of two datetimes is the comparison of the tuples
    (year, month, day, hour, minute, second, microsecond). *)
Definition fields (t : datetime) : list Z :=
  [year t; month t; day t; hour t; minute t; second t; microsecond t].

Fixpoint cmp (a b : list Z) : comparison :=
  match a, b with
  | x :: a', y :: b' =>
      match x ?= y with
      | Eq => cmp a' b'
      | c => c
      end
  | [], [] => Eq
  | [], _ :: _ => Lt
  | _ :: _, [] => Gt
  end.

(** [t2 >= t1]. *)
Definition ge (t2 t1 : datetime) : bool :=
  match cmp (fields t2) (fields t1) with
  | Lt => false
  | _ => true
  end.

(** The position of a datetime on the time line, in microseconds. *)
Definition instant (t : datetime) : Z :=
  ((toordinal t * 86400) + second t + minute t * 60 + hour t * 3600) * 1000000
  + microsecond t.

Definition US_PER_DAY : Z := 86400 * 1000000.

Definition days_in_year (y : Z) : Z := if is_leap y then 366 else 365.

End Datetime.

(** ** [datetime.fromisoformat]

    The texts read here are the forms [YYYY-MM-DD] and
    [YYYY-MM-DD*HH[:MM[:SS[.fff[fff]]]]] in ASCII digits, where [*] is any
    one character.  Whenever a value is returned below, Python returns
    the same value.  Python reads further texts (UTC offsets, and from
    3.11 on most of ISO 8601), on which ValueError is returned below:
    the properties of this file only use texts on which a value is
    returned. *)

Module Iso.
Import Datetime.

Definition digit (c : ascii) : option Z :=
  let n := Z.of_nat (nat_of_ascii c) in
  if (48 <=? n) && (n <=? 57) then Some (n - 48) else None.

Fixpoint digits (acc : Z) (cs : list ascii) : option Z :=
  match cs with
  | [] => Some acc
  | c :: cs' =>
      match digit c with
      | Some d => digits (acc * 10 + d) cs'
      | None => None
      end
  end.

Definition is_char (c : ascii) (x : ascii) : bool := bool_decide (c = x).

(** The date part: exactly ten characters. *)
Definition parse_isoformat_date (cs : list ascii) : option (Z * Z * Z) :=
  match cs with
  | [y1; y2; y3; y4; s1; m1; m2; s2; d1; d2] =>
      if is_char s1 "-"%char && is_char s2 "-"%char then
        match digits 0 [y1; y2; y3; y4], digits 0 [m1; m2], digits 0 [d1; d2] with
        | Some y, Some m, Some d => Some (y, m, d)
        | _, _, _ => None
        end
      else None
  | _ => None
  end.

(** The fraction of a second: three or six digits. *)
Definition parse_fraction (cs : list ascii) : option Z :=
  match cs with
  | [_; _; _] => option_map (fun n => n * 1000) (digits 0 cs)
  | [_; _; _; _; _; _] => digits 0 cs
  | _ => None
  end.

(** The time part: hour, minute, second, microsecond. *)
Definition parse_isoformat_time (cs : list ascii) : option (Z * Z * Z * Z) :=
  match cs with
  | [h1; h2] =>
      option_map (fun h => (h, 0, 0, 0)) (digits 0 [h1; h2])
  | [h1; h2; c1; m1; m2] =>
      if is_char c1 ":"%char then
        match digits 0 [h1; h2], digits 0 [m1; m2] with
        | Some h, Some m => Some (h, m, 0, 0)
        | _, _ => None
        end
      else None
  | h1 :: h2 :: c1 :: m1 :: m2 :: c2 :: s1 :: s2 :: rest =>
      if is_char c1 ":"%char && is_char c2 ":"%char then
        match digits 0 [h1; h2], digits 0 [m1; m2], digits 0 [s1; s2] with
        | Some h, Some m, Some s =>
            match rest with
            | [] => Some (h, m, s, 0)
            | dot :: frac =>
                if is_char dot "."%char then
                  option_map (fun us => (h, m, s, us)) (parse_fraction frac)
                else None
            end
        | _, _, _ => None
        end
      else None
  | _ => None
  end.

Definition build (ymd : Z * Z * Z) (hmsu : Z * Z * Z * Z) : result datetime :=
  let '(y, m, d) := ymd in
  let '(h, mi, s, us) := hmsu in
  let t := mk_datetime y m d h mi s us in
  if validb t then Ok t else Raise ValueError.

Definition fromisoformat (date_string : string) : result datetime :=
  let cs := String.list_ascii_of_string date_string in
  let dstr := take 10 cs in
  let tstr := drop 11 cs in
  let* ymd := of_option ValueError (parse_isoformat_date dstr) in
  match drop 10 cs with
  | [] => build ymd (0, 0, 0, 0)
  | _ :: _ =>
      let* hmsu := of_option ValueError (parse_isoformat_time tstr) in
      build ymd hmsu
  end.

End Iso.

(** ** Insertion-ordered dictionaries *)

Module Dict.
Section Ops.
Context {K V : Type} `{EqDecision K}.

(** [d.get(k)]: the value under [k], if any. *)
Fixpoint get (d : list (K * V)) (k : K) : option V :=
  match d with
  | [] => None
  | (k', v) :: d' => if decide (k' = k) then Some v else get d' k
  end.

(** [d[k] = v]: an existing key keeps its place, a new key goes last. *)
Fixpoint set (d : list (K * V)) (k : K) (v : V) : list (K * V) :=
  match d with
  | [] => [(k, v)]
  | (k', v') :: d' =>
      if decide (k' = k) then (k, v) :: d' else (k', v') :: set d' k v
  end.

Definition keys (d : list (K * V)) : list K := d.*1.

(** What a Python dictionary always satisfies: no key twice. *)
Definition wf (d : list (K * V)) : Prop := NoDup (keys d).

Global Instance wf_dec (d : list (K * V)) : Decision (wf d).
Proof. unfold wf. apply _. Defined.
End Ops.
End Dict.

(** ** The transition extractor: [process_conditions_data] *)

(** One row of [csv.DictReader], with the three columns the script reads. *)
Record Row : Type := mk_row {
  PATIENT : string;
  DESCRIPTION : string;
  START : string
}.

(** A row once its START column is parsed. *)
Record ConditionRecord : Type := mk_record {
  patient : string;
  description : string;
  start_date : Datetime.datetime
}.

(** A key of the dictionaries: (previous_description, description). *)
Abbreviation JourneyKey := (string * string)%type.
Abbreviation journeys := (list (JourneyKey * list Z)).

(** [journey_time_diffs[journey_key].append(time_diff)] on a
    [defaultdict(list)]: a missing key is first created with []. *)
Definition append_diff (d : journeys) (k : JourneyKey) (x : Z) : journeys :=
  Dict.set d k (default [] (Dict.get d k) ++ [x]).

(** The variables that live across the iterations of the loop.  The three
    [previous_*] variables are [None] together before the first row and
    are assigned together at the end of every iteration: one optional
    record. *)
Record ExtractState : Type := mk_extract {
  journey_time_diffs : journeys;
  previous : option ConditionRecord
}.

Definition extract_init : ExtractState :=
  {| journey_time_diffs := []; previous := None |}.

(** [(start_date - previous_start_date).days] *)
Definition time_diff (prev cur : ConditionRecord) : Z :=
  Datetime.days (Datetime.sub (start_date cur) (start_date prev)).

(** The body of the loop, once the row is read (lines 29 to 36). *)
Definition extract_step (st : ExtractState) (cur : ConditionRecord) : ExtractState :=
  {| journey_time_diffs :=
       match previous st with
       | Some prev =>
           if decide (patient prev = patient cur) then
             append_diff (journey_time_diffs st)
                         (description prev, description cur)
                         (time_diff prev cur)
           else journey_time_diffs st
       | None => journey_time_diffs st
       end;
     previous := Some cur |}.

(** The head of the loop body (lines 25 to 27). *)
Definition read_row (row : Row) : result ConditionRecord :=
  let* start := Iso.fromisoformat (START row) in
  Ok {| patient := PATIENT row;
        description := DESCRIPTION row;
        start_date := start |}.

Fixpoint extract_loop (rows : list Row) (st : ExtractState) : result ExtractState :=
  match rows with
  | [] => Ok st
  | row :: rest =>
      let* cur := read_row row in
      extract_loop rest (extract_step st cur)
  end.

Definition process_conditions_data (rows : list Row) : result journeys :=
  let* st := extract_loop rows extract_init in
  Ok (journey_time_diffs st).

(** The same pass over records that are already read. *)
Definition extract_run (recs : list ConditionRecord) : ExtractState :=
  foldl extract_step extract_init recs.

Definition extract (recs : list ConditionRecord) : journeys :=
  journey_time_diffs (extract_run recs).

(** ** The aggregator: [calculate_total_and_average_time] *)

(** A Python number: an [int], or a [float].  [PyFloat q] is the float
    that Python returns for the exact value [q], that is [q] rounded to
    the nearest binary64 value; the rounding itself is not computed. *)
Inductive number : Type :=
  | PyInt (z : Z)
  | PyFloat (q : Q).

(** The least magnitude that rounds beyond the largest float: half way
    between the largest float, 2^1024 - 2^971, and 2^1024. *)
Definition FLOAT_OVERFLOW : Z := 2 ^ 1024 - 2 ^ 970.

(** [a / b] on two integers: the correctly rounded quotient. *)
Definition true_div (a b : Z) : result Q :=
  if b =? 0 then Raise ZeroDivisionError
  else if FLOAT_OVERFLOW * Z.abs b <=? Z.abs a then Raise OverflowError
  else Ok (inject_Z a / inject_Z b)%Q.

(** [sum(l)]: the elements are added from the left, starting at 0. *)
Definition sum (l : list Z) : Z := foldl Z.add 0 l.

(** [len(l)] *)
Definition len {A : Type} (l : list A) : Z := Z.of_nat (length l).

(** The truth value of a list in a condition: it is not empty. *)
Definition truthy {A : Type} (l : list A) : bool :=
  match l with
  | [] => false
  | _ :: _ => true
  end.

(** [{'average': ..., 'total': ...}] *)
Record Stats : Type := mk_stats {
  average : number;
  total : Z
}.

Abbreviation times_dict := (list (JourneyKey * Stats)).

Definition stats_of (time_diffs : list Z) : result Stats :=
  let total_time := sum time_diffs in
  let* average_time :=
    (if truthy time_diffs then
       let* q := true_div total_time (len time_diffs) in Ok (PyFloat q)
     else Ok (PyInt 0)) in
  Ok {| average := average_time; total := total_time |}.

Fixpoint aggregate_loop (items : journeys) (times : times_dict) : result times_dict :=
  match items with
  | [] => Ok times
  | (journey_key, time_diffs) :: rest =>
      let* st := stats_of time_diffs in
      aggregate_loop rest (Dict.set times journey_key st)
  end.

Definition calculate_total_and_average_time (journey_time_diffs : journeys)
  : result times_dict :=
  aggregate_loop journey_time_diffs [].

(** ** The diagram model: [create_sankey_diagram] *)

Definition color_palette : list string :=
  [ "#0077BB"; "#33BBEE"; "#009988"; "#EE7733"; "#CC3311"; "#EE3377"; "#BBBBBB" ]%string.

(** The local variables of the function when the loop ends; [labels],
    [source], [target], [value] and [colors] are what the figure is
    built from. *)
Record Sankey : Type := mk_sankey {
  labels : list string;
  source : list nat;
  target : list nat;
  value : list Z;
  colors : list string;
  label_map : gmap string nat
}.

Definition sankey_init : Sankey :=
  {| labels := []; source := []; target := []; value := []; colors := [];
     label_map := ∅ |}.

(** One turn of [for cond in [from_cond, to_cond]]. *)
Definition add_label (st : Sankey) (cond : string) : Sankey :=
  match label_map st !! cond with
  | Some _ => st
  | None =>
      {| labels := labels st ++ [cond];
         source := source st; target := target st; value := value st;
         colors := colors st;
         label_map := <[cond := length (labels st)]> (label_map st) |}
  end.

(** The body of the loop over [enumerate(journey_data.items())]. *)
Definition sankey_step (i : nat) (item : JourneyKey * Stats) (st : Sankey)
  : result Sankey :=
  let '((from_cond, to_cond), data) := item in
  let st := foldl add_label st [from_cond; to_cond] in
  let* s := of_option KeyError (label_map st !! from_cond) in
  let* t := of_option KeyError (label_map st !! to_cond) in
  let* c := of_option IndexError
              (color_palette !! (i mod length color_palette)%nat) in
  Ok {| labels := labels st;
        source := source st ++ [s];
        target := target st ++ [t];
        value := value st ++ [total data];
        colors := colors st ++ [c];
        label_map := label_map st |}.

Fixpoint sankey_loop (i : nat) (items : times_dict) (st : Sankey) : result Sankey :=
  match items with
  | [] => Ok st
  | item :: rest =>
      let* st' := sankey_step i item st in
      sankey_loop (S i) rest st'
  end.

Definition create_sankey_diagram (journey_data : times_dict) : result Sankey :=
  sankey_loop 0 journey_data sankey_init.

(** The links of the figure: entry [i] of [source], [target] and [value]. *)
Record Link : Type := mk_link {
  link_source : nat;
  link_target : nat;
  link_value : Z
}.

Fixpoint zip_links (s t : list nat) (v : list Z) : list Link :=
  match s, t, v with
  | a :: s', b :: t', x :: v' => mk_link a b x :: zip_links s' t' v'
  | _, _, _ => []
  end.

Definition links (m : Sankey) : list Link :=
  zip_links (source m) (target m) (value m).

(** ** [main]: the three steps in a row *)

Definition main (rows : list Row) : result Sankey :=
  let* journey_time_diffs := process_conditions_data rows in
  let* times := calculate_total_and_average_time journey_time_diffs in
  create_sankey_diagram times.


(** ** The figure: what [create_sankey_diagram] hands to plotly *)

(** The arguments of [go.Sankey] and of [update_layout] (lines 96 to
    114).  Both the nodes and the links are given the list [colors]. *)
Record Figure : Type := mk_figure {
  node_pad : Z;
  node_thickness : Z;
  node_line_color : string;
  node_line_width : Q;
  node_label : list string;
  node_color : list string;
  link_sources : list nat;
  link_targets : list nat;
  link_values : list Z;
  link_colors : list string;
  title_text : string;
  font_size : Z;
  title_font_size : Z
}.

Definition sankey_figure (m : Sankey) : Figure :=
  {| node_pad := 15;
     node_thickness := 20;
     node_line_color := "black";
     node_line_width := 1 # 2;
     node_label := labels m;
     node_color := colors m;
     link_sources := source m;
     link_targets := target m;
     link_values := value m;
     link_colors := colors m;
     title_text := "Sankey Diagram of Patient Condition Journeys";
     font_size := 16;
     title_font_size := 18 |}.

(** ** Definitions used to state the properties *)

(** The pairs of neighbours of a list, in order. *)
Fixpoint adjacent {A : Type} (l : list A) : list (A * A) :=
  match l with
  | a :: (b :: _) as rest => (a, b) :: adjacent rest
  | _ => []
  end.

(** A pair of neighbours gives an observation under [k]: same patient,
    and [k] is the pair of their descriptions. *)
Definition observed_under (k : JourneyKey) (p : ConditionRecord * ConditionRecord) : Prop :=
  patient p.1 = patient p.2 /\ (description p.1, description p.2) = k.

Global Instance observed_under_dec k p : Decision (observed_under k p).
Proof. unfold observed_under. apply _. Defined.

(** The observations that the neighbours of a stream give under [k]. *)
Definition observations (recs : list ConditionRecord) (k : JourneyKey) : list Z :=
  (fun p => time_diff p.1 p.2) <$> filter (observed_under k) (adjacent recs).

(** The rows read one after the other, up to the first that fails. *)
Fixpoint read_rows (rows : list Row) : result (list ConditionRecord) :=
  match rows with
  | [] => Ok []
  | row :: rest =>
      let* cur := read_row row in
      let* recs := read_rows rest in
      Ok (cur :: recs)
  end.

(** The largest magnitude of the [days] of a [timedelta]. *)
Definition MAX_DELTA_DAYS : Z := 999999999.

(** A list of numbers of days. *)
Definition day_counts (l : list Z) : Prop :=
  Forall (fun x => Z.abs x <= MAX_DELTA_DAYS) l.

(** A dictionary whose lists are lists of numbers of days. *)
Definition day_lists (d : journeys) : Prop :=
  Forall (fun item => day_counts item.2) d.

(** The statistics of one list of observations. *)
Definition stats (time_diffs : list Z) : Stats :=
  {| average :=
       match time_diffs with
       | [] => PyInt 0
       | _ :: _ => PyFloat (inject_Z (sum time_diffs) / inject_Z (len time_diffs))
       end;
     total := sum time_diffs |}.

(** The descriptions named by the keys, in the order the loop meets
    them: for every key, first [from_cond], then [to_cond]. *)
Fixpoint endpoints (items : times_dict) : list string :=
  match items with
  | [] => []
  | ((from_cond, to_cond), _) :: rest => from_cond :: to_cond :: endpoints rest
  end.

(** A list without its repetitions: every element stays where it is
    first met. *)
Fixpoint first_occurrences (l : list string) : list string :=
  match l with
  | [] => []
  | x :: l' => x :: filter (fun y => y <> x) (first_occurrences l')
  end.

(** The state of the label registry once the descriptions [seen] have
    gone through [add_label]: [labels] holds their first occurrences and
    [label_map] sends a description to its position in [labels]. *)
Definition labelled (seen : list string) (st : Sankey) : Prop :=
  labels st = first_occurrences seen /\
  forall x i, label_map st !! x = Some i <-> labels st !! i = Some x.

(** The invariant of the loop of [create_sankey_diagram] once the items
    [done] are processed. *)
Record built (done : times_dict) (st : Sankey) : Prop := mk_built {
  built_labels : labelled (endpoints done) st;
  built_source :
    Forall2 (fun item s => labels st !! s = Some item.1.1) done (source st);
  built_target :
    Forall2 (fun item t => labels st !! t = Some item.1.2) done (target st);
  built_value : value st = (fun item => total item.2) <$> done;
  built_colors :
    Forall2 (fun j c => color_palette !! (j mod 7)%nat = Some c)
            (seq 0 (length done)) (colors st)
}.

(** ** Sample inputs *)

Definition scenario_rows : list Row :=
  [ mk_row "P1" "A" "2020-01-01"; mk_row "P1" "B" "2020-01-05";
    mk_row "P2" "C" "2020-01-01"; mk_row "P2" "D" "2020-01-02" ].

Definition scenario_transitions : journeys :=
  [ (("A", "B"), [4]); (("C", "D"), [1]) ]%string.

Definition scenario_stats : times_dict :=
  [ (("A", "B"), {| average := PyFloat (4 # 1); total := 4 |});
    (("C", "D"), {| average := PyFloat (1 # 1); total := 1 |}) ]%string.

Definition visit_a : ConditionRecord :=
  mk_record "P1" "A" (Datetime.mk_datetime 2020 1 1 0 0 0 0).

Definition visit_b : ConditionRecord :=
  mk_record "P1" "B" (Datetime.mk_datetime 2020 1 5 0 0 0 0).

Definition visit_c : ConditionRecord :=
  mk_record "P2" "C" (Datetime.mk_datetime 2020 1 2 0 0 0 0).

Definition visit_d : ConditionRecord :=
  mk_record "P1" "D" (Datetime.mk_datetime 2020 1 10 0 0 0 0).

(** Two rows of one patient, the second an hour before the first. *)
Definition out_of_order_rows : list Row :=
  [ mk_row "P1" "A" "2020-01-02T00:00:00";
    mk_row "P1" "B" "2020-01-01T23:00:00" ].

Definition visit_midnight : ConditionRecord :=
  mk_record "P1" "A" (Datetime.mk_datetime 2020 1 2 0 0 0 0).

Definition visit_evening_before : ConditionRecord :=
  mk_record "P1" "B" (Datetime.mk_datetime 2020 1 1 23 0 0 0).

Definition uneven_transitions : journeys :=
  [ (("A", "B"), [1; 2]) ]%string.

(** ** Definitions used to state further properties *)

(** The two records of a pair of neighbours belong to one patient. *)
Definition same_patient (p : ConditionRecord * ConditionRecord) : Prop :=
  patient p.1 = patient p.2.

Global Instance same_patient_dec p : Decision (same_patient p).
Proof. unfold same_patient. apply _. Defined.

(** The key under which a pair of neighbours is recorded. *)
Definition pair_key (p : ConditionRecord * ConditionRecord) : JourneyKey :=
  (description p.1, description p.2).

(** The observation that a pair of neighbours gives. *)
Definition pair_diff (p : ConditionRecord * ConditionRecord) : Z :=
  time_diff p.1 p.2.

(** The pairs of neighbours of a stream that give an observation. *)
Definition emitting (recs : list ConditionRecord)
  : list (ConditionRecord * ConditionRecord) :=
  filter same_patient (adjacent recs).

(** A list without its repetitions, every element where it is first
    met, for any type with a decidable equality. *)
Fixpoint first_seen {A : Type} `{EqDecision A} (l : list A) : list A :=
  match l with
  | [] => []
  | x :: l' => x :: filter (fun y => y <> x) (first_seen l')
  end.

(** All the observations of a dictionary, key after key. *)
Definition all_observations (d : journeys) : list Z := concat d.*2.

(** Two states of the loop of [create_sankey_diagram] that differ at
    most in [value]. *)
Definition same_shape (st st' : Sankey) : Prop :=
  labels st = labels st' /\ source st = source st' /\ target st = target st' /\
  colors st = colors st' /\ label_map st = label_map st'.

(** Four visits of one patient, A, B, A, B. *)
Definition zigzag_rows : list Row :=
  [ mk_row "P1" "A" "2020-01-01"; mk_row "P1" "B" "2020-01-03";
    mk_row "P1" "A" "2020-01-10"; mk_row "P1" "B" "2020-01-12" ].

Definition zigzag_records : list ConditionRecord :=
  [ mk_record "P1" "A" (Datetime.mk_datetime 2020 1 1 0 0 0 0);
    mk_record "P1" "B" (Datetime.mk_datetime 2020 1 3 0 0 0 0);
    mk_record "P1" "A" (Datetime.mk_datetime 2020 1 10 0 0 0 0);
    mk_record "P1" "B" (Datetime.mk_datetime 2020 1 12 0 0 0 0) ].

(** The rows of the scenario once read. *)
Definition scenario_records : list ConditionRecord :=
  [ visit_a; visit_b;
    mk_record "P2" "C" (Datetime.mk_datetime 2020 1 1 0 0 0 0);
    mk_record "P2" "D" (Datetime.mk_datetime 2020 1 2 0 0 0 0) ].

Definition zigzag_transitions : journeys :=
  [ (("A", "B"), [2; 2]); (("B", "A"), [7]) ]%string.

(** The statistics of the scenario with other numbers under the same
    keys. *)
Definition other_stats : times_dict :=
  [ (("A", "B"), {| average := PyFloat (7 # 2); total := 7 |});
    (("C", "D"), {| average := PyInt 0; total := 0 |}) ]%string.

(** * Properties *)

(** ** Dates *)

Module DatetimeFacts.
Import Datetime.

Lemma to_microseconds_sub t2 t1 :
  to_microseconds (sub t2 t1) = instant t2 - instant t1.
Proof.
  unfold to_microseconds, sub, new_timedelta, instant; simpl.
  Z.div_mod_to_equations. lia.
Qed.

Lemma timedelta_normal t2 t1 :
  0 <= seconds (sub t2 t1) < 86400 /\ 0 <= microseconds (sub t2 t1) < 1000000.
Proof.
  unfold sub, new_timedelta; simpl. Z.div_mod_to_equations. lia.
Qed.

(** The [days] field of a difference is the floor of the elapsed time
    in days. *)
Lemma days_sub_floor t2 t1 :
  days (sub t2 t1) = (instant t2 - instant t1) / US_PER_DAY.
Proof.
  pose proof (to_microseconds_sub t2 t1) as E.
  pose proof (timedelta_normal t2 t1) as [Hs Hu].
  unfold to_microseconds in E. rewrite <- E. unfold US_PER_DAY.
  Z.div_mod_to_equations. lia.
Qed.

Lemma is_leap_spec y :
  is_leap y = true <-> y mod 4 = 0 /\ (y mod 100 <> 0 \/ y mod 400 = 0).
Proof.
  unfold is_leap.
  rewrite andb_true_iff, orb_true_iff, negb_true_iff, !Z.eqb_eq, Z.eqb_neq.
  tauto.
Qed.

Lemma days_before_year_succ y :
  days_before_year (y + 1) = days_before_year y + days_in_year y.
Proof.
  unfold days_before_year, days_in_year.
  destruct (is_leap y) eqn:L.
  - apply is_leap_spec in L. Z.div_mod_to_equations. lia.
  - assert (~ (y mod 4 = 0 /\ (y mod 100 <> 0 \/ y mod 400 = 0))) as N
      by (rewrite <- is_leap_spec; congruence).
    Z.div_mod_to_equations. lia.
Qed.

Lemma days_before_year_mono a b :
  a <= b -> days_before_year a <= days_before_year b.
Proof.
  unfold days_before_year. intros. Z.div_mod_to_equations. lia.
Qed.

Lemma month_cases m :
  1 <= m <= 12 ->
  m = 1 \/ m = 2 \/ m = 3 \/ m = 4 \/ m = 5 \/ m = 6 \/
  m = 7 \/ m = 8 \/ m = 9 \/ m = 10 \/ m = 11 \/ m = 12.
Proof. lia. Qed.

Ltac each_month H :=
  apply month_cases in H;
  repeat (destruct H as [H | H]; [subst | ]); [.. | subst].

Ltac read_tables :=
  repeat match goal with
  | |- context [month_entry ?t ?m] =>
      let v := eval vm_compute in (month_entry t m) in
      change (month_entry t m) with v
  end.

(** The day of the year lies within the year. *)
Lemma day_of_year_bounds y m d :
  1 <= m <= 12 -> 1 <= d <= days_in_month y m ->
  1 <= days_before_month y m + d <= days_in_year y.
Proof.
  intros Hm. unfold days_in_month, days_before_month, days_in_year.
  each_month Hm; destruct (is_leap y); simpl; read_tables; lia.
Qed.

Lemma day_of_year_mono y m1 d1 m2 d2 :
  1 <= m1 <= 12 -> 1 <= m2 <= 12 ->
  1 <= d1 <= days_in_month y m1 -> 1 <= d2 <= days_in_month y m2 ->
  m1 < m2 ->
  days_before_month y m1 + d1 < days_before_month y m2 + d2.
Proof.
  intros Hm1 Hm2. unfold days_in_month, days_before_month.
  each_month Hm1; each_month Hm2; destruct (is_leap y); simpl; read_tables; lia.
Qed.

Lemma ymd2ord_year_lt y1 m1 d1 y2 m2 d2 :
  1 <= m1 <= 12 -> 1 <= m2 <= 12 ->
  1 <= d1 <= days_in_month y1 m1 -> 1 <= d2 <= days_in_month y2 m2 ->
  y1 < y2 ->
  ymd2ord y1 m1 d1 < ymd2ord y2 m2 d2.
Proof.
  intros Hm1 Hm2 Hd1 Hd2 Hy. unfold ymd2ord.
  pose proof (day_of_year_bounds y1 m1 d1 Hm1 Hd1).
  pose proof (day_of_year_bounds y2 m2 d2 Hm2 Hd2).
  pose proof (days_before_year_succ y1).
  pose proof (days_before_year_mono (y1 + 1) y2).
  lia.
Qed.

(** On values the constructor accepts, the order of the field tuples is
    the order of the instants. *)
Lemma cmp_fields_instant t2 t1 :
  valid t2 -> valid t1 ->
  cmp (fields t2) (fields t1) = (instant t2 ?= instant t1).
Proof.
  intros (Hy2 & Hm2 & Hd2 & Hh2 & Hmi2 & Hs2 & Hu2)
         (Hy1 & Hm1 & Hd1 & Hh1 & Hmi1 & Hs1 & Hu1).
  unfold fields, instant, toordinal. cbn [cmp].
  symmetry.
  destruct (Z.compare_spec (year t2) (year t1)) as [Ey | Ly | Ly].
  2: { apply Z.compare_lt_iff.
       pose proof (ymd2ord_year_lt _ _ _ _ _ _ Hm2 Hm1 Hd2 Hd1 Ly). lia. }
  2: { apply Z.compare_gt_iff.
       pose proof (ymd2ord_year_lt _ _ _ _ _ _ Hm1 Hm2 Hd1 Hd2 Ly). lia. }
  rewrite Ey in *.
  destruct (Z.compare_spec (month t2) (month t1)) as [Em | Lm | Lm].
  2: { apply Z.compare_lt_iff. unfold ymd2ord.
       pose proof (day_of_year_mono _ _ _ _ _ Hm2 Hm1 Hd2 Hd1 Lm). lia. }
  2: { apply Z.compare_gt_iff. unfold ymd2ord.
       pose proof (day_of_year_mono _ _ _ _ _ Hm1 Hm2 Hd1 Hd2 Lm). lia. }
  rewrite Em in *. unfold ymd2ord.
  destruct (Z.compare_spec (day t2) (day t1)) as [Ed | Ld | Ld];
    [ rewrite Ed | apply Z.compare_lt_iff; lia | apply Z.compare_gt_iff; lia ].
  destruct (Z.compare_spec (hour t2) (hour t1)) as [Eh | Lh | Lh];
    [ rewrite Eh | apply Z.compare_lt_iff; lia | apply Z.compare_gt_iff; lia ].
  destruct (Z.compare_spec (minute t2) (minute t1)) as [Emi | Lmi | Lmi];
    [ rewrite Emi | apply Z.compare_lt_iff; lia | apply Z.compare_gt_iff; lia ].
  destruct (Z.compare_spec (second t2) (second t1)) as [Es | Ls | Ls];
    [ rewrite Es | apply Z.compare_lt_iff; lia | apply Z.compare_gt_iff; lia ].
  destruct (Z.compare_spec (microsecond t2) (microsecond t1)) as [Eu | Lu | Lu];
    [ rewrite Eu | apply Z.compare_lt_iff; lia | apply Z.compare_gt_iff; lia ].
  apply Z.compare_refl.
Qed.

Lemma ge_instant t2 t1 :
  valid t2 -> valid t1 -> (ge t2 t1 = true <-> instant t1 <= instant t2).
Proof.
  intros V2 V1. unfold ge. rewrite (cmp_fields_instant _ _ V2 V1).
  destruct (Z.compare_spec (instant t2) (instant t1)); split; intros; try lia; congruence.
Qed.

Lemma validb_valid t : validb t = true <-> valid t.
Proof.
  unfold validb, valid.
  rewrite !andb_true_iff, !Z.leb_le. tauto.
Qed.

(** Every date lies between 0001-01-01 and 9999-12-31. *)
Lemma toordinal_range t : valid t -> 1 <= toordinal t <= 3652060.
Proof.
  intros (Hy & Hm & Hd & _). unfold toordinal, ymd2ord.
  pose proof (day_of_year_bounds _ _ _ Hm Hd) as Hdoy.
  pose proof (days_before_year_mono 1 (year t)) as Hlo.
  pose proof (days_before_year_mono (year t) 9999) as Hhi.
  change (days_before_year 1) with 0 in Hlo.
  change (days_before_year 9999) with 3651694 in Hhi.
  assert (days_in_year (year t) <= 366)
    by (unfold days_in_year; destruct (is_leap (year t)); lia).
  lia.
Qed.

Lemma days_sub_range t2 t1 :
  valid t2 -> valid t1 -> Z.abs (days (sub t2 t1)) <= 3652061.
Proof.
  intros V2 V1.
  pose proof (toordinal_range _ V2). pose proof (toordinal_range _ V1).
  destruct V2 as (_ & _ & _ & ? & ? & ? & ?).
  destruct V1 as (_ & _ & _ & ? & ? & ? & ?).
  unfold sub, new_timedelta; simpl.
  Z.div_mod_to_equations. lia.
Qed.

End DatetimeFacts.

(** ** Reading the rows *)

Module IsoFacts.
Import Datetime Iso.

Lemma build_valid ymd hmsu t : build ymd hmsu = Ok t -> valid t.
Proof.
  destruct ymd as [[y m] d], hmsu as [[[h mi] sec] us]. unfold build.
  destruct (validb _) eqn:V; [| done].
  intros [= <-]. by apply DatetimeFacts.validb_valid.
Qed.

(** What [fromisoformat] returns went through the checks of the
    constructor. *)
Lemma fromisoformat_valid text t : fromisoformat text = Ok t -> valid t.
Proof.
  unfold fromisoformat.
  destruct (parse_isoformat_date _) as [ymd |]; simpl; [| done].
  destruct (drop 10 _); [apply build_valid |].
  destruct (parse_isoformat_time _) as [hmsu |]; simpl; [| done].
  apply build_valid.
Qed.

End IsoFacts.

(** ** Insertion-ordered dictionaries *)

Module DictFacts.
Import Dict.
Section Facts.
Context {K V : Type} `{EqDecision K}.
Implicit Types (d : list (K * V)) (k : K) (v : V).

Lemma get_set_eq d k v : get (set d k v) k = Some v.
Proof.
  induction d as [| [k' v'] d IH]; simpl.
  - by rewrite decide_True.
  - destruct (decide (k' = k)) as [-> | N]; simpl.
    + by rewrite decide_True.
    + by rewrite decide_False.
Qed.

Lemma get_set_ne d k k' v : k <> k' -> get (set d k v) k' = get d k'.
Proof.
  intros N. induction d as [| [k0 v0] d IH]; simpl.
  - by rewrite decide_False.
  - destruct (decide (k0 = k)) as [-> | N0]; simpl.
    + by rewrite !decide_False.
    + by rewrite IH.
Qed.

Lemma get_None d k : get d k = None <-> k ∉ keys d.
Proof.
  unfold keys. induction d as [| [k' v'] d IH]; simpl.
  - split; [intros _; apply not_elem_of_nil | done].
  - rewrite not_elem_of_cons. destruct (decide (k' = k)) as [-> | N].
    + split; [done | intros [? _]; done].
    + rewrite IH. split; [intros; split; [congruence | done] | tauto].
Qed.

(** A new key goes to the end. *)
Lemma set_fresh d k v : get d k = None -> set d k v = d ++ [(k, v)].
Proof.
  induction d as [| [k' v'] d IH]; simpl; [done |].
  destruct (decide (k' = k)); [done |]. intros H. by rewrite IH.
Qed.

(** An existing key keeps its place. *)
Lemma keys_set_present d k v : is_Some (get d k) -> keys (set d k v) = keys d.
Proof.
  unfold keys. induction d as [| [k' v'] d IH]; simpl.
  - by intros [? ?].
  - destruct (decide (k' = k)) as [-> | N]; simpl; [done |].
    intros H. f_equal. by apply IH.
Qed.

Lemma wf_set d k v : wf d -> wf (set d k v).
Proof.
  unfold wf. intros W. destruct (get d k) as [v0 |] eqn:G.
  - by rewrite keys_set_present.
  - rewrite (set_fresh _ _ _ G). unfold keys. rewrite fmap_app. simpl.
    apply NoDup_app. split; [done |]. split.
    + intros x Hx Hx'. apply list_elem_of_singleton in Hx'. subst x.
      by apply get_None in G.
    + apply NoDup_singleton.
Qed.

Lemma get_lookup d i k v : wf d -> d !! i = Some (k, v) -> get d k = Some v.
Proof.
  unfold wf, keys. revert i. induction d as [| [k' v'] d IH]; intros i W; [done |].
  simpl in W. apply NoDup_cons in W as [Hk W].
  destruct i as [| i]; simpl.
  - intros [= -> ->]. by rewrite decide_True.
  - intros Hi. destruct (decide (k' = k)) as [-> | N].
    + exfalso. apply Hk. apply list_elem_of_fmap. exists (k, v). split; [done |].
      eapply list_elem_of_lookup_2; eauto.
    + eauto.
Qed.
End Facts.

Lemma get_fmap {K V W : Type} `{EqDecision K} (f : V -> W) (d : list (K * V)) k :
  get (prod_map id f <$> d) k = f <$> get d k.
Proof.
  induction d as [| [k' v'] d IH]; simpl; [done |].
  by destruct (decide (k' = k)).
Qed.
End DictFacts.

(** ** The extractor *)

Module ExtractFacts.
Import DictFacts.

Lemma adjacent_snoc {A : Type} (l : list A) (x : A) :
  adjacent (l ++ [x]) =
  adjacent l ++ match last l with Some p => [(p, x)] | None => [] end.
Proof.
  induction l as [| a [| b l] IH]; [done | done |].
  change (adjacent ((a :: b :: l) ++ [x])) with ((a, b) :: adjacent ((b :: l) ++ [x])).
  rewrite IH. done.
Qed.

Lemma extract_run_snoc recs r :
  extract_run (recs ++ [r]) = extract_step (extract_run recs) r.
Proof. unfold extract_run. by rewrite foldl_app. Qed.

Lemma previous_run recs : previous (extract_run recs) = last recs.
Proof.
  destruct recs as [| r recs] using rev_ind; [done |].
  by rewrite extract_run_snoc, last_snoc.
Qed.

Lemma get_append_diff_eq d k x :
  Dict.get (append_diff d k x) k = Some (default [] (Dict.get d k) ++ [x]).
Proof. apply get_set_eq. Qed.

Lemma get_append_diff_ne d k k' x :
  k <> k' -> Dict.get (append_diff d k x) k' = Dict.get d k'.
Proof. apply get_set_ne. Qed.

Lemma wf_append_diff d k x : Dict.wf d -> Dict.wf (append_diff d k x).
Proof. apply wf_set. Qed.

Lemma wf_extract_run recs : Dict.wf (journey_time_diffs (extract_run recs)).
Proof.
  induction recs as [| r recs IH] using rev_ind; [apply NoDup_nil_2 |].
  rewrite extract_run_snoc. unfold extract_step; simpl.
  destruct (previous (extract_run recs)); [| done].
  case_decide; [by apply wf_append_diff | done].
Qed.

(** What the script does row by row is the pass over the rows once read. *)
Lemma extract_loop_read rows st :
  extract_loop rows st =
  let* recs := read_rows rows in Ok (foldl extract_step st recs).
Proof.
  revert st. induction rows as [| row rows IH]; intros st; simpl; [done |].
  destruct (read_row row) as [cur | e]; simpl; [| done].
  rewrite IH. by destruct (read_rows rows).
Qed.

Lemma process_conditions_data_read rows :
  process_conditions_data rows =
  let* recs := read_rows rows in Ok (extract recs).
Proof.
  unfold process_conditions_data. rewrite extract_loop_read.
  by destruct (read_rows rows).
Qed.

(** The list under a key is the list of the observations that the
    neighbours give under it; a key with no observation is absent. *)
Lemma get_extract recs k :
  Dict.get (extract recs) k =
  match observations recs k with
  | [] => None
  | obs => Some obs
  end.
Proof.
  unfold extract, observations.
  induction recs as [| r recs IH] using rev_ind; [done |].
  rewrite extract_run_snoc, adjacent_snoc, filter_app, fmap_app.
  unfold extract_step; simpl. rewrite previous_run.
  destruct (last recs) as [p |]; simpl.
  2: { by rewrite app_nil_r. }
  rewrite filter_cons, filter_nil. unfold observed_under at 2. simpl.
  destruct (decide (patient p = patient r)) as [Ep | Np].
  - destruct (decide ((description p, description r) = k)) as [Ek | Nk].
    + rewrite decide_True by done. subst k.
      rewrite get_append_diff_eq, IH. simpl.
      by destruct (_ <$> filter _ (adjacent recs)).
    + rewrite decide_False by (by intros [_ ?]).
      rewrite get_append_diff_ne by done. simpl. by rewrite app_nil_r.
  - rewrite decide_False by (by intros [? _]). simpl. by rewrite app_nil_r.
Qed.

Lemma get_extract_nonempty recs k obs :
  Dict.get (extract recs) k = Some obs -> obs <> [].
Proof.
  rewrite get_extract. destruct (observations recs k); [done |].
  by intros [= <-].
Qed.

(** The turn of the loop on the second of two neighbours. *)
Lemma extract_neighbours pre r1 r2 :
  extract (pre ++ [r1; r2]) =
  if decide (patient r1 = patient r2) then
    append_diff (extract (pre ++ [r1])) (description r1, description r2)
                (time_diff r1 r2)
  else extract (pre ++ [r1]).
Proof.
  unfold extract. change [r1; r2] with ([r1] ++ [r2]). rewrite app_assoc.
  rewrite (extract_run_snoc (pre ++ [r1]) r2). unfold extract_step; simpl.
  rewrite previous_run, last_snoc. by destruct (decide (patient r1 = patient r2)).
Qed.

Lemma previous_neighbours pre r1 r2 :
  previous (extract_run (pre ++ [r1; r2])) = Some r2.
Proof.
  change [r1; r2] with ([r1] ++ [r2]).
  by rewrite app_assoc, previous_run, last_snoc.
Qed.

Lemma time_diff_floor r1 r2 :
  time_diff r1 r2 =
  (Datetime.instant (start_date r2) - Datetime.instant (start_date r1))
  / Datetime.US_PER_DAY.
Proof. apply DatetimeFacts.days_sub_floor. Qed.

(** What is recorded stays: later rows only add to the end of a list. *)
Lemma observations_app recs post k :
  exists later, observations (recs ++ post) k = observations recs k ++ later.
Proof.
  unfold observations.
  induction post as [| x post [later IH]] using rev_ind.
  - exists []. by rewrite !app_nil_r.
  - rewrite app_assoc, adjacent_snoc, filter_app, fmap_app, IH.
    eexists. by rewrite <- app_assoc.
Qed.

Lemma get_extract_app recs post k obs :
  Dict.get (extract recs) k = Some obs ->
  exists later, Dict.get (extract (recs ++ post)) k = Some (obs ++ later).
Proof.
  rewrite !get_extract. destruct (observations_app recs post k) as [later ->].
  destruct (observations recs k) as [| x l]; [done |].
  intros [= <-]. by exists later.
Qed.

(** The same for the script: what the turn on [r2] puts under a key is
    found, followed by what comes later, in the dictionary returned. *)
Lemma process_keeps rows pre r1 r2 post k obs :
  read_rows rows = Ok (pre ++ [r1; r2] ++ post) ->
  Dict.get (extract (pre ++ [r1; r2])) k = Some obs ->
  exists d later,
    process_conditions_data rows = Ok d /\ Dict.get d k = Some (obs ++ later).
Proof.
  intros R G. rewrite process_conditions_data_read, R. simpl.
  destruct (get_extract_app _ post _ _ G) as [later E].
  exists (extract (pre ++ [r1; r2] ++ post)), later.
  split; [done |]. by rewrite <- app_assoc in E.
Qed.

Lemma read_row_valid row cur :
  read_row row = Ok cur -> Datetime.valid (start_date cur).
Proof.
  unfold read_row.
  destruct (Iso.fromisoformat (START row)) as [t |] eqn:E; simpl; [| done].
  intros [= <-]. simpl. by eapply IsoFacts.fromisoformat_valid.
Qed.

Lemma read_rows_valid rows recs :
  read_rows rows = Ok recs ->
  Forall (fun r => Datetime.valid (start_date r)) recs.
Proof.
  revert recs. induction rows as [| row rows IH]; intros recs; simpl.
  - intros [= <-]. apply Forall_nil_2.
  - destruct (read_row row) as [cur | e] eqn:E; simpl; [| done].
    destruct (read_rows rows) as [rest | e]; simpl; [| done].
    intros [= <-]. apply Forall_cons. split; [by eapply read_row_valid | by apply IH].
Qed.

Lemma adjacent_elem {A : Type} (l : list A) (a b : A) :
  (a, b) ∈ adjacent l -> a ∈ l /\ b ∈ l.
Proof.
  induction l as [| x [| y l] IH]; [by intros ?%elem_of_nil | by intros ?%elem_of_nil |].
  change (adjacent (x :: y :: l)) with ((x, y) :: adjacent (y :: l)).
  rewrite elem_of_cons. intros [[= -> ->] | H].
  - rewrite !elem_of_cons. tauto.
  - apply IH in H as [? ?]. split; apply elem_of_cons; by right.
Qed.

Lemma time_diff_range r1 r2 :
  Datetime.valid (start_date r1) -> Datetime.valid (start_date r2) ->
  Z.abs (time_diff r1 r2) <= MAX_DELTA_DAYS.
Proof.
  intros V1 V2. pose proof (DatetimeFacts.days_sub_range _ _ V2 V1) as H.
  unfold time_diff, MAX_DELTA_DAYS. lia.
Qed.

(** What is read from the rows went through the checks of [datetime]. *)
Lemma read_rows_valid_neighbours rows pre r1 r2 post :
  read_rows rows = Ok (pre ++ [r1; r2] ++ post) ->
  Datetime.valid (start_date r1) /\ Datetime.valid (start_date r2).
Proof.
  intros R. apply read_rows_valid in R.
  apply Forall_app in R as [_ R]. apply Forall_app in R as [R _].
  apply Forall_cons in R as [V1 R]. by apply Forall_cons in R as [V2 _].
Qed.

(** The observations of a stream of dated records are numbers of days. *)
Lemma observations_day_counts recs k :
  Forall (fun r => Datetime.valid (start_date r)) recs ->
  day_counts (observations recs k).
Proof.
  intros V. rewrite Forall_forall in V.
  unfold day_counts, observations. apply Forall_forall. intros x Hx.
  apply list_elem_of_fmap in Hx as ([a b] & -> & Hp).
  apply list_elem_of_filter in Hp as [_ Hp]. apply adjacent_elem in Hp as [Ha Hb].
  apply time_diff_range; by apply V.
Qed.

Lemma extract_day_lists recs :
  Forall (fun r => Datetime.valid (start_date r)) recs ->
  day_lists (extract recs).
Proof.
  intros V. apply Forall_forall. intros [k l] Hkl.
  apply list_elem_of_lookup_1 in Hkl as [i Hi].
  apply (get_lookup (extract recs) _ _ _ (wf_extract_run recs)) in Hi.
  rewrite get_extract in Hi. simpl.
  destruct (observations recs k) as [| x obs] eqn:E; [done |].
  injection Hi as <-. rewrite <- E. by apply observations_day_counts.
Qed.

End ExtractFacts.

(** ** The aggregator *)

Module AggregateFacts.
Import DictFacts.

Lemma foldl_add_shift a l : foldl Z.add a l = a + foldl Z.add 0 l.
Proof.
  revert a. induction l as [| x l IH]; intros a; simpl; [lia |].
  rewrite (IH (a + x)), (IH (0 + x)). lia.
Qed.

Lemma sum_cons x l : sum (x :: l) = x + sum l.
Proof. unfold sum; simpl. by rewrite foldl_add_shift. Qed.

Lemma sum_Permutation l l' : l ≡ₚ l' -> sum l = sum l'.
Proof.
  induction 1 as [| x l l' _ IH | x y l | l l' l'' _ IH1 _ IH2].
  - done.
  - by rewrite !sum_cons, IH.
  - rewrite !sum_cons. lia.
  - congruence.
Qed.

Lemma len_nonzero {A : Type} (x : A) (l : list A) : len (x :: l) <> 0.
Proof. unfold len; simpl. lia. Qed.

Lemma len_cons {A : Type} (x : A) (l : list A) : len (x :: l) = 1 + len l.
Proof. unfold len; simpl length. lia. Qed.

Lemma len_nonneg {A : Type} (l : list A) : 0 <= len l.
Proof. unfold len. lia. Qed.

Lemma days_below_overflow : MAX_DELTA_DAYS < FLOAT_OVERFLOW.
Proof. by vm_compute. Qed.

Lemma sum_day_counts l : day_counts l -> Z.abs (sum l) <= MAX_DELTA_DAYS * len l.
Proof.
  induction 1 as [| x l Hx _ IH].
  - by vm_compute.
  - rewrite sum_cons, len_cons. lia.
Qed.

(** Whenever the statistics of a list are returned, they are [stats]. *)
Lemma stats_of_inv time_diffs st : stats_of time_diffs = Ok st -> st = stats time_diffs.
Proof.
  unfold stats_of, stats, true_div. destruct time_diffs as [| x l].
  - by intros [= <-].
  - cbn [truthy]. destruct (len (x :: l) =? 0); [done |].
    destruct (_ <=? _); [done |]. by intros [= <-].
Qed.

(** The division is never reached with an empty list. *)
Lemma stats_of_no_zero_division time_diffs :
  stats_of time_diffs <> Raise ZeroDivisionError.
Proof.
  unfold stats_of, true_div. destruct time_diffs as [| x l]; [done |].
  cbn [truthy].
  destruct (Z.eqb_spec (len (x :: l)) 0) as [E | _].
  - by apply len_nonzero in E.
  - by destruct (_ <=? _).
Qed.

(** On numbers of days the quotient is within the range of float. *)
Lemma stats_of_ok time_diffs :
  day_counts time_diffs -> stats_of time_diffs = Ok (stats time_diffs).
Proof.
  intros B. unfold stats_of, stats, true_div. destruct time_diffs as [| x l]; [done |].
  cbn [truthy].
  destruct (Z.eqb_spec (len (x :: l)) 0) as [E | _].
  { by apply len_nonzero in E. }
  destruct (Z.leb_spec (FLOAT_OVERFLOW * Z.abs (len (x :: l))) (Z.abs (sum (x :: l))))
    as [Hle | _]; [| done].
  exfalso. apply sum_day_counts in B.
  pose proof days_below_overflow. pose proof (len_nonneg l).
  rewrite len_cons in *. nia.
Qed.

Lemma aggregate_loop_inv (items : journeys) (times res : times_dict) :
  NoDup (Dict.keys times ++ Dict.keys items) ->
  aggregate_loop items times = Ok res ->
  res = times ++ (prod_map id stats <$> items).
Proof.
  revert times. induction items as [| [k l] items IH]; intros times N; simpl.
  - intros [= <-]. by rewrite app_nil_r.
  - destruct (stats_of l) as [st | e] eqn:E; [| done]. simpl.
    apply stats_of_inv in E as ->.
    assert (Dict.get times k = None) as G.
    { apply get_None. intros Hk. simpl in N. apply NoDup_app in N as (_ & N & _).
      apply (N k Hk). apply elem_of_cons. by left. }
    rewrite (set_fresh _ _ _ G). intros H. apply IH in H.
    + by rewrite <- app_assoc in H.
    + unfold Dict.keys in *. rewrite fmap_app, <- app_assoc. exact N.
Qed.

Lemma aggregate_loop_ok (items : journeys) (times : times_dict) :
  day_lists items ->
  exists res, aggregate_loop items times = Ok res.
Proof.
  intros B. revert times. induction B as [| [k l] items Hl _ IH]; intros times; simpl.
  - by exists times.
  - rewrite (stats_of_ok l Hl). simpl. apply IH.
Qed.

Lemma aggregate_loop_no_zero_division (items : journeys) (times : times_dict) :
  aggregate_loop items times <> Raise ZeroDivisionError.
Proof.
  revert times. induction items as [| [k l] items IH]; intros times; simpl; [done |].
  pose proof (stats_of_no_zero_division l) as Hz.
  destruct (stats_of l) as [st | e]; simpl; [apply IH | congruence].
Qed.

(** Whenever the aggregator returns, it returns the statistics of every
    list, with the keys in the same order. *)
Lemma calculate_inv (d : journeys) (times : times_dict) :
  Dict.wf d ->
  calculate_total_and_average_time d = Ok times ->
  times = prod_map id stats <$> d.
Proof.
  intros W H. by apply aggregate_loop_inv in H.
Qed.

(** On lists of numbers of days the aggregator returns. *)
Lemma calculate_ok (d : journeys) :
  day_lists d -> exists times, calculate_total_and_average_time d = Ok times.
Proof. apply aggregate_loop_ok. Qed.

Lemma sum_foldr l : sum l = foldr Z.add 0 l.
Proof.
  induction l as [| x l IH]; [done |]. by rewrite sum_cons, IH.
Qed.

Lemma get_calculate (d : journeys) k :
  Dict.get (prod_map id stats <$> d) k = stats <$> Dict.get d k.
Proof. apply get_fmap. Qed.

(** The quotient of the model is exact: multiplied by the divisor it
    gives the dividend back. *)
Lemma quotient_exact (a b : Z) :
  b <> 0 -> (inject_Z a / inject_Z b * inject_Z b == inject_Z a)%Q.
Proof.
  intros Nb. rewrite Qmult_comm. apply Qmult_div_r.
  unfold Qeq; simpl. lia.
Qed.

End AggregateFacts.

(** ** The diagram model *)

Module SankeyFacts.

Lemma elem_of_first_occurrences x l : x ∈ first_occurrences l <-> x ∈ l.
Proof.
  induction l as [| a l IH]; simpl; [done |].
  rewrite !elem_of_cons, list_elem_of_filter, IH.
  destruct (decide (x = a)); tauto.
Qed.

Lemma NoDup_first_occurrences l : NoDup (first_occurrences l).
Proof.
  induction l as [| a l IH]; simpl; [apply NoDup_nil_2 |].
  apply NoDup_cons. split.
  - rewrite list_elem_of_filter. by intros [? _].
  - by apply NoDup_filter.
Qed.

Lemma first_occurrences_snoc l x :
  first_occurrences (l ++ [x]) =
  if decide (x ∈ l) then first_occurrences l else first_occurrences l ++ [x].
Proof.
  induction l as [| a l IH]; cbn [first_occurrences app].
  - rewrite filter_nil. by rewrite decide_False by apply not_elem_of_nil.
  - rewrite IH. destruct (decide (x ∈ l)) as [I | N].
    + rewrite decide_True; [done |]. apply elem_of_cons. by right.
    + rewrite filter_app, filter_cons, filter_nil.
      destruct (decide (x = a)) as [-> | Na].
      * rewrite (decide_True (P := a ∈ a :: l)) by (apply elem_of_cons; by left).
        rewrite (decide_False (P := a <> a)) by (intros ?; done).
        by rewrite app_nil_r.
      * rewrite (decide_True (P := x <> a)) by done.
        rewrite (decide_False (P := x ∈ a :: l)); [done |].
        rewrite elem_of_cons. intros [? | ?]; done.
Qed.

Lemma size_first_occurrences l :
  length (first_occurrences l) = size (list_to_set l : gset string).
Proof.
  assert ((list_to_set l : gset string) = list_to_set (first_occurrences l)) as ->.
  { apply set_eq. intros x.
    by rewrite !elem_of_list_to_set, elem_of_first_occurrences. }
  unfold size, set_size; simpl.
  symmetry. apply Permutation_length, elements_list_to_set,
    NoDup_first_occurrences.
Qed.

Lemma endpoints_snoc items f t data :
  endpoints (items ++ [((f, t), data)]) = endpoints items ++ [f; t].
Proof.
  induction items as [| [[f' t'] d'] items IH]; simpl; [done |].
  by rewrite IH.
Qed.

Lemma endpoints_elem items x :
  x ∈ endpoints items <->
  exists item, item ∈ items /\ (x = item.1.1 \/ x = item.1.2).
Proof.
  induction items as [| [[f t] d] items IH]; simpl.
  - split; [by intros ?%elem_of_nil | by intros (? & ?%elem_of_nil & _)].
  - rewrite !elem_of_cons, IH. split.
    + intros [-> | [-> | (item & Hi & Hx)]].
      * exists ((f, t), d). rewrite elem_of_cons. simpl. tauto.
      * exists ((f, t), d). rewrite elem_of_cons. simpl. tauto.
      * exists item. rewrite elem_of_cons. tauto.
    + intros (item & Hi & Hx). apply elem_of_cons in Hi as [-> | Hi]; simpl in Hx.
      * tauto.
      * right. right. by exists item.
Qed.

(** *** [add_label] *)

Lemma add_label_fields st x :
  source (add_label st x) = source st /\ target (add_label st x) = target st /\
  value (add_label st x) = value st /\ colors (add_label st x) = colors st.
Proof. unfold add_label. by destruct (label_map st !! x). Qed.

Lemma add_label_grows st x :
  exists new, labels (add_label st x) = labels st ++ new.
Proof.
  unfold add_label. destruct (label_map st !! x).
  - exists []. by rewrite app_nil_r.
  - by exists [x].
Qed.

Lemma add_label_labelled seen st x :
  labelled seen st -> labelled (seen ++ [x]) (add_label st x).
Proof.
  intros [HL HM]. unfold add_label, labelled.
  rewrite first_occurrences_snoc.
  destruct (label_map st !! x) as [i |] eqn:E.
  - apply HM in E. apply list_elem_of_lookup_2 in E.
    rewrite HL, elem_of_first_occurrences in E.
    by rewrite decide_True.
  - assert (x ∉ seen) as N.
    { intros I. apply elem_of_first_occurrences in I. rewrite <- HL in I.
      apply list_elem_of_lookup_1 in I as [i I]. apply HM in I. congruence. }
    rewrite decide_False by done. simpl. split; [by rewrite HL |].
    intros y i. destruct (decide (x = y)) as [<- | Ny].
    + rewrite lookup_insert_eq. split.
      * intros [= <-]. by rewrite list_lookup_middle.
      * intros Hi. f_equal.
        destruct (decide (i < length (labels st))%nat) as [Lt | Ge].
        -- rewrite lookup_app_l in Hi by done. apply HM in Hi. congruence.
        -- apply lookup_lt_Some in Hi. rewrite length_app in Hi. simpl in Hi. lia.
    + rewrite lookup_insert_ne by done. rewrite HM. split.
      * intros Hi. by apply lookup_app_l_Some.
      * intros Hi.
        destruct (decide (i < length (labels st))%nat) as [Lt | Ge].
        -- by rewrite lookup_app_l in Hi.
        -- rewrite lookup_app_r in Hi by lia.
           apply list_lookup_singleton_Some in Hi as [_ ?]. done.
Qed.

(** *** The loop *)

Lemma built_init : built [] sankey_init.
Proof.
  split; simpl; try done; apply Forall2_nil_2.
Qed.

Lemma palette_in_range i : is_Some (color_palette !! (i mod 7)%nat).
Proof.
  apply lookup_lt_is_Some. change (length color_palette) with 7%nat.
  apply Nat.mod_upper_bound. lia.
Qed.

(** One turn of the loop never raises, and keeps the invariant. *)
Lemma sankey_step_built done item st :
  built done st ->
  exists st', sankey_step (length done) item st = Ok st' /\ built (done ++ [item]) st'.
Proof.
  intros [HL HS HT HV HC]. destruct item as [[f t] data].
  unfold sankey_step. cbn [foldl].
  set (st1 := add_label st f). set (st2 := add_label st1 t).
  assert (labelled (endpoints (done ++ [((f, t), data)])) st2) as HL2.
  { rewrite endpoints_snoc.
    change [f; t] with ([f] ++ [t]). rewrite app_assoc.
    by apply add_label_labelled, add_label_labelled. }
  destruct (add_label_fields st f) as (Es1 & Et1 & Ev1 & Ec1).
  destruct (add_label_fields st1 t) as (Es2 & Et2 & Ev2 & Ec2).
  fold st1 in Es1, Et1, Ev1, Ec1. fold st2 in Es2, Et2, Ev2, Ec2.
  assert (forall i y, labels st !! i = Some y -> labels st2 !! i = Some y) as Hkeep.
  { intros i y Hi.
    destruct (add_label_grows st f) as [n1 E1].
    destruct (add_label_grows st1 t) as [n2 E2].
    fold st1 in E1. fold st2 in E2. rewrite E2, E1.
    by apply lookup_app_l_Some, lookup_app_l_Some. }
  destruct HL2 as [HL2 HM2].
  assert (exists s, labels st2 !! s = Some f) as [s Hs].
  { apply list_elem_of_lookup_1. rewrite HL2, elem_of_first_occurrences.
    rewrite endpoints_snoc, elem_of_app, !elem_of_cons. tauto. }
  assert (exists t', labels st2 !! t' = Some t) as [t' Ht].
  { apply list_elem_of_lookup_1. rewrite HL2, elem_of_first_occurrences.
    rewrite endpoints_snoc, elem_of_app, !elem_of_cons. tauto. }
  destruct (palette_in_range (length done)) as [c Hc].
  change (length color_palette) with 7%nat.
  rewrite (proj2 (HM2 f s) Hs), (proj2 (HM2 t t') Ht), Hc. cbn [of_option bind].
  eexists. split; [reflexivity |].
  split; cbn [labels source target value colors label_map].
  - by split.
  - rewrite Es2, Es1. apply Forall2_app.
    + eapply Forall2_impl; [exact HS |]. intros item s0. apply Hkeep.
    + by apply Forall2_cons_2; [| apply Forall2_nil_2].
  - rewrite Et2, Et1. apply Forall2_app.
    + eapply Forall2_impl; [exact HT |]. intros item t0. apply Hkeep.
    + by apply Forall2_cons_2; [| apply Forall2_nil_2].
  - by rewrite Ev2, Ev1, HV, fmap_app.
  - rewrite Ec2, Ec1, length_app. cbn [length].
    rewrite Nat.add_1_r, seq_S. apply Forall2_app; [done |].
    by apply Forall2_cons_2; [| apply Forall2_nil_2].
Qed.

Lemma sankey_loop_built items done st :
  built done st ->
  exists st', sankey_loop (length done) items st = Ok st' /\ built (done ++ items) st'.
Proof.
  revert done st. induction items as [| item items IH]; intros done st B.
  - exists st. by rewrite app_nil_r.
  - destruct (sankey_step_built done item st B) as (st1 & E1 & B1).
    cbn [sankey_loop]. rewrite E1. cbn [bind].
    destruct (IH _ _ B1) as (st' & E' & B').
    rewrite length_app, Nat.add_1_r in E'. cbn [length] in E'.
    exists st'. split; [done |].
    by rewrite <- app_assoc in B'.
Qed.

(** [create_sankey_diagram] never raises, and what it returns satisfies
    the invariant for the whole of its input. *)
Lemma create_sankey_diagram_built journey_data :
  exists m, create_sankey_diagram journey_data = Ok m /\ built journey_data m.
Proof. apply (sankey_loop_built journey_data [] sankey_init built_init). Qed.

(** *** The links *)

Lemma zip_links_length s t v :
  length t = length s -> length v = length s ->
  length (zip_links s t v) = length s.
Proof.
  revert t v. induction s as [| a s IH]; intros [| b t] [| x v]; simpl; try done.
  intros [= Ht] [= Hv]. f_equal. by apply IH.
Qed.

Lemma zip_links_lookup s t v i a b x :
  s !! i = Some a -> t !! i = Some b -> v !! i = Some x ->
  zip_links s t v !! i = Some (mk_link a b x).
Proof.
  revert t v i. induction s as [| a' s IH]; intros [| b' t] [| x' v] [| i];
    simpl; try done.
  - by intros [= ->] [= ->] [= ->].
  - apply IH.
Qed.

Lemma Forall2_functional {A B : Type} (R : A -> B -> Prop) l k k' :
  (forall a b b', R a b -> R a b' -> b = b') ->
  Forall2 R l k -> Forall2 R l k' -> k = k'.
Proof.
  intros Fun H. revert k'. induction H as [| a b l k Hab _ IH]; intros k' H'.
  - by apply Forall2_nil_inv_l in H'.
  - apply Forall2_cons_inv_l in H' as (b' & k'' & Hab' & H'' & ->).
    f_equal; [by eapply Fun | by apply IH].
Qed.

End SankeyFacts.

(** ** The model on a few inputs *)

Example toordinal_2020 :
  Datetime.toordinal (Datetime.mk_datetime 2020 1 1 0 0 0 0) = 737425.
Proof. reflexivity. Qed.

Example fromisoformat_fraction :
  Iso.fromisoformat "2020-02-29 23:59:59.250" =
  Ok (Datetime.mk_datetime 2020 2 29 23 59 59 250000).
Proof. by vm_compute. Qed.

Example fromisoformat_no_such_day :
  Iso.fromisoformat "2021-02-29" = Raise ValueError.
Proof. by vm_compute. Qed.

(** A row that cannot be read stops the whole pass. *)
Example malformed_date_aborts :
  process_conditions_data
    [ mk_row "P1" "A" "2020-01-01"; mk_row "P1" "B" "01/05/2020" ] =
  Raise ValueError.
Proof. by vm_compute. Qed.

(** Three visits of one patient, A then B then A: two keys. *)
Example there_and_back :
  process_conditions_data
    [ mk_row "P1" "A" "2020-01-01"; mk_row "P1" "B" "2020-01-03";
      mk_row "P1" "A" "2020-01-10" ] =
  Ok [ (("A", "B"), [2]); (("B", "A"), [7]) ]%string.
Proof. by vm_compute. Qed.

(** The same pair twice: one key, two observations, in order. *)
Example repeated_pair :
  process_conditions_data
    [ mk_row "P1" "A" "2020-01-01"; mk_row "P1" "B" "2020-01-03";
      mk_row "P2" "A" "2020-03-01"; mk_row "P2" "B" "2020-03-02" ] =
  Ok [ (("A", "B"), [2; 1]) ]%string.
Proof. by vm_compute. Qed.

(** The test before the division: an empty list has the average 0. *)
Example empty_list_average :
  calculate_total_and_average_time [ (("A", "B")%string, []) ] =
  Ok [ (("A", "B")%string, {| average := PyInt 0; total := 0 |}) ].
Proof. by vm_compute. Qed.

(** The eighth link takes the first colour again. *)
Example eighth_color :
  color_palette !! (7 mod length color_palette)%nat = Some "#0077BB"%string.
Proof. reflexivity. Qed.

(** * The claims *)

(** C1. On the rows (P1, A, 2020-01-01), (P1, B, 2020-01-05),
    (P2, C, 2020-01-01), (P2, D, 2020-01-02), in this order, the extractor
    returns {(A,B): [4], (C,D): [1]}, the aggregator returns
    {(A,B): total 4, average 4.0; (C,D): total 1, average 1.0}, and the
    diagram has the labels [A, B, C, D] and the links
    [(source 0, target 1, value 4), (source 2, target 3, value 1)];
    [main] runs the three steps and returns this diagram. *)
Theorem scenario_pipeline :
  process_conditions_data scenario_rows = Ok scenario_transitions /\
  calculate_total_and_average_time scenario_transitions = Ok scenario_stats /\
  exists m,
    create_sankey_diagram scenario_stats = Ok m /\
    main scenario_rows = Ok m /\
    labels m = [ "A"; "B"; "C"; "D" ]%string /\
    links m = [ mk_link 0 1 4; mk_link 2 3 1 ].
Proof.
  split; [by vm_compute |]. split; [by vm_compute |].
  destruct (SankeyFacts.create_sankey_diagram_built scenario_stats) as (m & E & _).
  exists m. split; [exact E |].
  assert (main scenario_rows = create_sankey_diagram scenario_stats) as ->
    by (by vm_compute).
  split; [exact E |].
  vm_compute in E. injection E as <-. by vm_compute.
Qed.

(** C2. For two neighbours [r1], [r2] of the stream with the same patient
    and [r2.start_date >= r1.start_date], the turn of the loop on [r2]
    appends exactly one observation to the list under
    (r1.description, r2.description) and leaves every other key as it
    was; the observation is the difference of the two start dates in
    days, truncated to a whole number, and it is not negative; it is
    found, where it was put, in the dictionary that the extractor
    returns. *)
Theorem same_patient_neighbours_observation
    (rows : list Row) (pre post : list ConditionRecord) (r1 r2 : ConditionRecord) :
  read_rows rows = Ok (pre ++ [r1; r2] ++ post) ->
  patient r1 = patient r2 ->
  Datetime.ge (start_date r2) (start_date r1) = true ->
  exists obs,
    obs = (Datetime.instant (start_date r2) - Datetime.instant (start_date r1))
          ÷ Datetime.US_PER_DAY /\
    0 <= obs /\
    time_diff r1 r2 = obs /\
    Dict.get (extract (pre ++ [r1; r2])) (description r1, description r2) =
      Some (default [] (Dict.get (extract (pre ++ [r1]))
                                 (description r1, description r2)) ++ [obs]) /\
    (forall k, k <> (description r1, description r2) ->
       Dict.get (extract (pre ++ [r1; r2])) k = Dict.get (extract (pre ++ [r1])) k) /\
    exists d later,
      process_conditions_data rows = Ok d /\
      Dict.get d (description r1, description r2) =
        Some ((default [] (Dict.get (extract (pre ++ [r1]))
                                    (description r1, description r2)) ++ [obs])
              ++ later).
Proof.
  intros R Ep Hge.
  destruct (ExtractFacts.read_rows_valid_neighbours _ _ _ _ _ R) as [V1 V2].
  apply (DatetimeFacts.ge_instant _ _ V2 V1) in Hge.
  assert (0 < Datetime.US_PER_DAY) as Hpos by done.
  assert (time_diff r1 r2 =
          (Datetime.instant (start_date r2) - Datetime.instant (start_date r1))
          ÷ Datetime.US_PER_DAY) as Ed.
  { rewrite ExtractFacts.time_diff_floor.
    symmetry. apply Z.quot_div_nonneg; assumption || lia. }
  assert (Dict.get (extract (pre ++ [r1; r2])) (description r1, description r2) =
          Some (default [] (Dict.get (extract (pre ++ [r1]))
                                     (description r1, description r2))
                ++ [time_diff r1 r2])) as G.
  { rewrite ExtractFacts.extract_neighbours, decide_True by done.
    apply ExtractFacts.get_append_diff_eq. }
  exists (time_diff r1 r2). split; [exact Ed |].
  split. { rewrite ExtractFacts.time_diff_floor. apply Z.div_pos; assumption || lia. }
  split; [done |]. split; [exact G |]. split.
  - intros k Nk.
    rewrite ExtractFacts.extract_neighbours, decide_True by done.
    by apply ExtractFacts.get_append_diff_ne.
  - by eapply ExtractFacts.process_keeps.
Qed.

(** On the first two rows of the scenario, (P1, A, 2020-01-01) and
    (P1, B, 2020-01-05), the observation is 4. *)
Lemma same_patient_neighbours_observation_witness :
  (read_rows (take 2 scenario_rows) = Ok ([] ++ [visit_a; visit_b] ++ []) /\
   patient visit_a = patient visit_b /\
   Datetime.ge (start_date visit_b) (start_date visit_a) = true) /\
  exists obs,
    obs = 4 /\ 0 <= obs /\
    time_diff visit_a visit_b = obs /\
    Dict.get (extract ([] ++ [visit_a; visit_b])) ("A", "B")%string =
      Some (default [] (Dict.get (extract ([] ++ [visit_a])) ("A", "B")%string)
            ++ [obs]) /\
    (forall k, k <> ("A", "B")%string ->
       Dict.get (extract ([] ++ [visit_a; visit_b])) k =
       Dict.get (extract ([] ++ [visit_a])) k) /\
    exists d later,
      process_conditions_data (take 2 scenario_rows) = Ok d /\
      Dict.get d ("A", "B")%string =
        Some ((default [] (Dict.get (extract ([] ++ [visit_a])) ("A", "B")%string)
               ++ [obs]) ++ later).
Proof.
  assert (read_rows (take 2 scenario_rows) = Ok ([] ++ [visit_a; visit_b] ++ []))
    as R by (by vm_compute).
  split; [by repeat split |].
  apply (same_patient_neighbours_observation _ [] [] visit_a visit_b R);
    reflexivity.
Defined.

(** C3. For two neighbours [r1], [r2] with different patients, the turn
    of the loop on [r2] records nothing, and [r2] still becomes the
    previous record: the next record [r3] is compared with [r2], never
    with [r1].  In general the list that the extractor returns under a
    key holds the observations of the neighbours of the stream and
    nothing else, so no observation is computed between two records that
    are not neighbours, also when they belong to one patient. *)
Theorem patient_boundary
    (pre : list ConditionRecord) (r1 r2 r3 : ConditionRecord) :
  patient r1 <> patient r2 ->
  extract (pre ++ [r1; r2]) = extract (pre ++ [r1]) /\
  previous (extract_run (pre ++ [r1; r2])) = Some r2 /\
  extract (pre ++ [r1; r2; r3]) =
    (if decide (patient r2 = patient r3) then
       append_diff (extract (pre ++ [r1])) (description r2, description r3)
                   (time_diff r2 r3)
     else extract (pre ++ [r1])) /\
  forall rows d,
    process_conditions_data rows = Ok d ->
    exists recs,
      read_rows rows = Ok recs /\
      forall k,
        Dict.get d k =
        match observations recs k with
        | [] => None
        | obs => Some obs
        end.
Proof.
  intros Np.
  assert (extract (pre ++ [r1; r2]) = extract (pre ++ [r1])) as E12.
  { rewrite ExtractFacts.extract_neighbours. by rewrite decide_False. }
  split; [exact E12 |].
  split; [apply ExtractFacts.previous_neighbours |].
  split.
  - change (pre ++ [r1; r2; r3]) with (pre ++ [r1] ++ [r2; r3]).
    rewrite app_assoc, ExtractFacts.extract_neighbours.
    rewrite <- app_assoc. change ([r1] ++ [r2]) with [r1; r2].
    by rewrite E12.
  - intros rows d. rewrite ExtractFacts.process_conditions_data_read.
    destruct (read_rows rows) as [recs | e]; [| done]. simpl.
    intros [= <-]. exists recs. split; [done |].
    apply ExtractFacts.get_extract.
Qed.

(** A visit of another patient between two visits of P1: nothing is
    recorded, although the first and the third record are of one
    patient. *)
Lemma patient_boundary_witness :
  patient visit_a <> patient visit_c /\
  extract [visit_a; visit_c; visit_d] = [].
Proof.
  assert (patient visit_a <> patient visit_c) as Np by (by vm_compute).
  split; [exact Np |].
  destruct (patient_boundary [] visit_a visit_c visit_d Np) as (_ & _ & E & _).
  exact E.
Defined.

(** C9 fails as it is stated: for two rows of one patient whose second
    start date is one hour before the first, the observation is -1. *)
Lemma negative_short_gap_counterexample :
  read_rows out_of_order_rows = Ok [visit_midnight; visit_evening_before] /\
  patient visit_midnight = patient visit_evening_before /\
  Z.abs (Datetime.to_microseconds
           (Datetime.sub (start_date visit_evening_before)
                         (start_date visit_midnight))) < Datetime.US_PER_DAY /\
  process_conditions_data out_of_order_rows = Ok [(("A", "B")%string, [-1])] /\
  time_diff visit_midnight visit_evening_before <> 0.
Proof. repeat split; by vm_compute. Qed.

(** C9, amended. For two neighbours of the stream with the same patient
    whose start dates are less than 24 hours apart, the observation is 0
    when the second start date is not before the first, and -1 when it is
    before it: the number of whole days is rounded towards minus
    infinity. *)
Theorem short_gap_observation
    (rows : list Row) (pre post : list ConditionRecord) (r1 r2 : ConditionRecord) :
  read_rows rows = Ok (pre ++ [r1; r2] ++ post) ->
  patient r1 = patient r2 ->
  Z.abs (Datetime.to_microseconds
           (Datetime.sub (start_date r2) (start_date r1))) < Datetime.US_PER_DAY ->
  exists obs,
    obs = (if Datetime.ge (start_date r2) (start_date r1) then 0 else -1) /\
    time_diff r1 r2 = obs /\
    Dict.get (extract (pre ++ [r1; r2])) (description r1, description r2) =
      Some (default [] (Dict.get (extract (pre ++ [r1]))
                                 (description r1, description r2)) ++ [obs]) /\
    exists d later,
      process_conditions_data rows = Ok d /\
      Dict.get d (description r1, description r2) =
        Some ((default [] (Dict.get (extract (pre ++ [r1]))
                                    (description r1, description r2)) ++ [obs])
              ++ later).
Proof.
  intros R Ep Habs.
  destruct (ExtractFacts.read_rows_valid_neighbours _ _ _ _ _ R) as [V1 V2].
  rewrite DatetimeFacts.to_microseconds_sub in Habs.
  pose proof (DatetimeFacts.ge_instant _ _ V2 V1) as Hge.
  assert (time_diff r1 r2 =
          if Datetime.ge (start_date r2) (start_date r1) then 0 else -1) as Ed.
  { rewrite ExtractFacts.time_diff_floor. unfold Datetime.US_PER_DAY in *.
    destruct (Datetime.ge (start_date r2) (start_date r1)).
    - assert (Datetime.instant (start_date r1) <= Datetime.instant (start_date r2))
        by (by apply Hge).
      Z.div_mod_to_equations. lia.
    - assert (~ Datetime.instant (start_date r1) <= Datetime.instant (start_date r2))
        by (intros H; by apply Hge in H).
      Z.div_mod_to_equations. lia. }
  assert (Dict.get (extract (pre ++ [r1; r2])) (description r1, description r2) =
          Some (default [] (Dict.get (extract (pre ++ [r1]))
                                     (description r1, description r2))
                ++ [time_diff r1 r2])) as G.
  { rewrite ExtractFacts.extract_neighbours, decide_True by done.
    apply ExtractFacts.get_append_diff_eq. }
  exists (time_diff r1 r2). split; [exact Ed |]. split; [done |].
  split; [exact G |]. by eapply ExtractFacts.process_keeps.
Qed.

(** On the two rows of the counterexample the observation is -1. *)
Lemma short_gap_observation_witness :
  (read_rows out_of_order_rows =
     Ok ([] ++ [visit_midnight; visit_evening_before] ++ []) /\
   patient visit_midnight = patient visit_evening_before /\
   Z.abs (Datetime.to_microseconds
            (Datetime.sub (start_date visit_evening_before)
                          (start_date visit_midnight))) < Datetime.US_PER_DAY) /\
  exists obs,
    obs = -1 /\
    time_diff visit_midnight visit_evening_before = obs /\
    Dict.get (extract ([] ++ [visit_midnight; visit_evening_before]))
             ("A", "B")%string =
      Some (default [] (Dict.get (extract ([] ++ [visit_midnight]))
                                 ("A", "B")%string) ++ [obs]) /\
    exists d later,
      process_conditions_data out_of_order_rows = Ok d /\
      Dict.get d ("A", "B")%string =
        Some ((default [] (Dict.get (extract ([] ++ [visit_midnight]))
                                    ("A", "B")%string) ++ [obs]) ++ later).
Proof.
  assert (read_rows out_of_order_rows =
            Ok ([] ++ [visit_midnight; visit_evening_before] ++ [])) as R
    by (by vm_compute).
  split; [repeat split; by vm_compute |].
  apply (short_gap_observation _ [] [] visit_midnight visit_evening_before R);
    by vm_compute.
Defined.

(** C4. For every key of the dictionary the aggregator returns, [total]
    is the sum of the observations recorded under that key, and it is the
    same for any other order of these observations. *)
Theorem total_is_sum (d : journeys) (times : times_dict) :
  Dict.wf d ->
  calculate_total_and_average_time d = Ok times ->
  forall k st, Dict.get times k = Some st ->
    exists obs,
      Dict.get d k = Some obs /\
      total st = foldr Z.add 0 obs /\
      forall d' times' obs',
        Dict.wf d' -> Dict.get d' k = Some obs' -> obs' ≡ₚ obs ->
        calculate_total_and_average_time d' = Ok times' ->
        exists st', Dict.get times' k = Some st' /\ total st' = total st.
Proof.
  intros W E k st. apply (AggregateFacts.calculate_inv _ _ W) in E as ->.
  rewrite AggregateFacts.get_calculate.
  destruct (Dict.get d k) as [obs |] eqn:G; [| done].
  intros [= <-]. exists obs. split; [done |].
  split; [apply AggregateFacts.sum_foldr |].
  intros d' times' obs' W' G' HP E'.
  apply (AggregateFacts.calculate_inv _ _ W') in E' as ->.
  exists (stats obs').
  split; [by rewrite AggregateFacts.get_calculate, G' |].
  simpl. by apply AggregateFacts.sum_Permutation.
Qed.

(** In the scenario the total under (A, B) is 4. *)
Lemma total_is_sum_witness :
  (Dict.wf scenario_transitions /\
   calculate_total_and_average_time scenario_transitions = Ok scenario_stats /\
   Dict.get scenario_stats ("A", "B")%string =
     Some {| average := PyFloat (4 # 1); total := 4 |}) /\
  exists obs,
    Dict.get scenario_transitions ("A", "B")%string = Some obs /\
    4 = foldr Z.add 0 obs /\
    forall d' times' obs',
      Dict.wf d' -> Dict.get d' ("A", "B")%string = Some obs' -> obs' ≡ₚ obs ->
      calculate_total_and_average_time d' = Ok times' ->
      exists st', Dict.get times' ("A", "B")%string = Some st' /\ total st' = 4.
Proof.
  assert (Dict.wf scenario_transitions) as W
    by (apply (bool_decide_unpack (Dict.wf scenario_transitions)); by vm_compute).
  assert (calculate_total_and_average_time scenario_transitions = Ok scenario_stats)
    as E by (by vm_compute).
  assert (Dict.get scenario_stats ("A", "B")%string =
          Some {| average := PyFloat (4 # 1); total := 4 |}) as G by (by vm_compute).
  split; [by repeat split |].
  exact (total_is_sum scenario_transitions scenario_stats W E _ _ G).
Defined.

(** C5. For every key of the dictionary the aggregator returns,
    [average] is [total] divided by the number of observations, an exact
    quotient and not a truncated one; the division is behind a test, so
    an empty list gives 0 and the aggregator never raises
    ZeroDivisionError; and in a dictionary returned by the extractor no
    list is empty, so after the extractor that test never fails, and the
    aggregator returns. *)
Theorem average_is_guarded_quotient (d : journeys) :
  Dict.wf d ->
  calculate_total_and_average_time d <> Raise ZeroDivisionError /\
  (forall times, calculate_total_and_average_time d = Ok times ->
     forall k st, Dict.get times k = Some st ->
       exists obs,
         Dict.get d k = Some obs /\
         (obs <> [] ->
            average st = PyFloat (inject_Z (total st) / inject_Z (len obs)) /\
            (inject_Z (total st) / inject_Z (len obs) * inject_Z (len obs)
             == inject_Z (total st))%Q) /\
         (obs = [] -> average st = PyInt 0)) /\
  (forall rows, process_conditions_data rows = Ok d ->
     (forall k obs, Dict.get d k = Some obs -> obs <> []) /\
     exists times, calculate_total_and_average_time d = Ok times).
Proof.
  intros W. split; [apply AggregateFacts.aggregate_loop_no_zero_division |]. split.
  - intros times E k st. apply (AggregateFacts.calculate_inv _ _ W) in E as ->.
    rewrite AggregateFacts.get_calculate.
    destruct (Dict.get d k) as [obs |] eqn:G; [| done].
    intros [= <-]. exists obs. split; [done |]. split.
    + destruct obs as [| x obs]; [done |]. intros _. split; [done |].
      apply AggregateFacts.quotient_exact, AggregateFacts.len_nonzero.
    + by intros ->.
  - intros rows. rewrite ExtractFacts.process_conditions_data_read.
    destruct (read_rows rows) as [recs | e] eqn:R; [| done]. simpl.
    intros [= <-]. split.
    + intros k obs. apply ExtractFacts.get_extract_nonempty.
    + apply AggregateFacts.calculate_ok, ExtractFacts.extract_day_lists.
      by eapply ExtractFacts.read_rows_valid.
Qed.

(** The observations 1 and 2 have the average 3/2, not 1. *)
Lemma average_is_guarded_quotient_witness :
  Dict.wf uneven_transitions /\
  calculate_total_and_average_time uneven_transitions =
    Ok [(("A", "B")%string, {| average := PyFloat (3 # 2); total := 3 |})] /\
  exists obs,
    Dict.get uneven_transitions ("A", "B")%string = Some obs /\
    (obs <> [] ->
       PyFloat (3 # 2) = PyFloat (inject_Z 3 / inject_Z (len obs)) /\
       (inject_Z 3 / inject_Z (len obs) * inject_Z (len obs) == inject_Z 3)%Q) /\
    (obs = [] -> PyFloat (3 # 2) = PyInt 0).
Proof.
  assert (Dict.wf uneven_transitions) as W
    by (apply (bool_decide_unpack (Dict.wf uneven_transitions)); by vm_compute).
  split; [exact W |].
  assert (calculate_total_and_average_time uneven_transitions =
    Ok [(("A", "B")%string, {| average := PyFloat (3 # 2); total := 3 |})]) as E
    by (by vm_compute).
  split; [exact E |].
  destruct (average_is_guarded_quotient uneven_transitions W) as (_ & H & _).
  exact (H _ E ("A", "B")%string {| average := PyFloat (3 # 2); total := 3 |}
           eq_refl).
Defined.

(** C6. In the diagram of any aggregated dictionary, every description
    that is an end of some key is in [labels] exactly once and nothing
    else is; the length of [labels] is the number of distinct such
    descriptions; and the indices follow the order in which the loop
    first meets the descriptions, [from_cond] before [to_cond] for one
    key: [labels] is the list of end points without its repetitions and
    [label_map] sends a description to its position in [labels]. *)
Theorem label_registry (journey_data : times_dict) :
  exists m,
    create_sankey_diagram journey_data = Ok m /\
    NoDup (labels m) /\
    (forall x, x ∈ labels m <->
       exists item, item ∈ journey_data /\ (x = item.1.1 \/ x = item.1.2)) /\
    length (labels m) = size (list_to_set (endpoints journey_data) : gset string) /\
    labels m = first_occurrences (endpoints journey_data) /\
    (forall x i, label_map m !! x = Some i <-> labels m !! i = Some x).
Proof.
  destruct (SankeyFacts.create_sankey_diagram_built journey_data)
    as (m & E & [[HL HM] _ _ _ _]).
  exists m. split; [exact E |]. rewrite HL.
  split; [apply SankeyFacts.NoDup_first_occurrences |].
  split.
  { intros x. rewrite SankeyFacts.elem_of_first_occurrences.
    apply SankeyFacts.endpoints_elem. }
  split; [apply SankeyFacts.size_first_occurrences |].
  split; [done |].
  intros x i. by rewrite HM, HL.
Qed.

(** C7. In the diagram of any aggregated dictionary there is one colour
    per link, and the colour at position [i] is the entry [i mod 7] of
    the palette of 7 colours; two dictionaries with the same number of
    keys get the same colours, whatever their keys and statistics. *)
Theorem colors_follow_position (journey_data : times_dict) :
  exists m,
    create_sankey_diagram journey_data = Ok m /\
    length color_palette = 7%nat /\
    length (colors m) = length journey_data /\
    length (colors m) = length (links m) /\
    (forall i, (i < length journey_data)%nat ->
       colors m !! i = color_palette !! (i mod 7)%nat) /\
    (forall journey_data' m',
       length journey_data' = length journey_data ->
       create_sankey_diagram journey_data' = Ok m' ->
       colors m' = colors m).
Proof.
  destruct (SankeyFacts.create_sankey_diagram_built journey_data)
    as (m & E & [_ HS HT HV HC]).
  exists m. split; [exact E |]. split; [done |].
  assert (length (colors m) = length journey_data) as LC.
  { apply Forall2_length in HC. by rewrite length_seq in HC. }
  split; [exact LC |].
  split.
  { apply Forall2_length in HS, HT. unfold links.
    rewrite SankeyFacts.zip_links_length; [congruence | congruence |].
    rewrite HV, length_fmap. congruence. }
  split.
  - intros i Hi.
    destruct (Forall2_lookup_l _ _ _ i i HC) as (c & Hc & Hp).
    { by apply lookup_seq_lt. }
    by rewrite Hc, Hp.
  - intros jd' m' Hlen E'.
    destruct (SankeyFacts.create_sankey_diagram_built jd') as (m2 & E2 & [_ _ _ _ HC2]).
    rewrite E' in E2. injection E2 as <-. rewrite Hlen in HC2.
    eapply SankeyFacts.Forall2_functional; [| exact HC2 | exact HC].
    intros j c c' H1 H2. congruence.
Qed.

(** C8. A stream without rows, and a stream of one row, give an empty
    dictionary of transitions, an empty dictionary of statistics and a
    diagram without labels and without links; nothing is raised. *)
Theorem short_stream_is_empty (row : Row) (cur : ConditionRecord) :
  read_row row = Ok cur ->
  process_conditions_data [] = Ok [] /\
  process_conditions_data [row] = Ok [] /\
  calculate_total_and_average_time [] = Ok [] /\
  exists m,
    create_sankey_diagram [] = Ok m /\
    main [] = Ok m /\
    main [row] = Ok m /\
    labels m = [] /\ links m = [] /\
    source m = [] /\ target m = [] /\ value m = [] /\ colors m = [].
Proof.
  intros R.
  assert (process_conditions_data [row] = Ok []) as E1.
  { unfold process_conditions_data; simpl. by rewrite R. }
  split; [done |]. split; [exact E1 |]. split; [done |].
  exists sankey_init. split; [done |]. split; [done |].
  split; [| done]. unfold main. by rewrite E1.
Qed.

(** The single row (P1, A, 2020-01-01) gives the empty diagram. *)
Lemma short_stream_is_empty_witness :
  read_row (mk_row "P1" "A" "2020-01-01") = Ok visit_a /\
  main [mk_row "P1" "A" "2020-01-01"] = Ok sankey_init.
Proof.
  assert (read_row (mk_row "P1" "A" "2020-01-01") = Ok visit_a) as R
    by (by vm_compute).
  split; [exact R |].
  destruct (short_stream_is_empty _ _ R) as (_ & _ & _ & m & E & _ & Em & _).
  injection E as <-. exact Em.
Defined.

(** C10. In the diagram of any aggregated dictionary there is one link
    per key, the link at position [i] is the link of the key at position
    [i]: it carries the total of that key, and its source and target are
    the positions in [labels] of the two descriptions of the key; so both
    indices are below the length of [labels]. *)
Theorem links_follow_keys (journey_data : times_dict) :
  exists m,
    create_sankey_diagram journey_data = Ok m /\
    length (links m) = length journey_data /\
    forall i from_cond to_cond data,
      journey_data !! i = Some ((from_cond, to_cond), data) ->
      exists l,
        links m !! i = Some l /\
        link_value l = total data /\
        labels m !! link_source l = Some from_cond /\
        labels m !! link_target l = Some to_cond /\
        (link_source l < length (labels m))%nat /\
        (link_target l < length (labels m))%nat.
Proof.
  destruct (SankeyFacts.create_sankey_diagram_built journey_data)
    as (m & E & [_ HS HT HV _]).
  exists m. split; [exact E |].
  pose proof (Forall2_length _ _ _ HS) as LS.
  pose proof (Forall2_length _ _ _ HT) as LT.
  assert (length (value m) = length journey_data) as LV
    by (by rewrite HV, length_fmap).
  split.
  { unfold links. rewrite SankeyFacts.zip_links_length; congruence. }
  intros i f t data Hi.
  destruct (Forall2_lookup_l _ _ _ i _ HS Hi) as (s & Hs & Ls).
  destruct (Forall2_lookup_l _ _ _ i _ HT Hi) as (t' & Ht & Lt).
  assert (value m !! i = Some (total data)) as Hv
    by (by rewrite HV, list_lookup_fmap, Hi).
  simpl in Ls, Lt.
  exists (mk_link s t' (total data)).
  split; [by apply SankeyFacts.zip_links_lookup |]. simpl.
  split; [done |]. split; [done |]. split; [done |].
  split; by eapply lookup_lt_Some.
Qed.

(** * Further properties *)

(** ** The extractor *)

Module ExtractMore.
Import DictFacts ExtractFacts.

Lemma observations_emitting recs k :
  observations recs k =
  pair_diff <$> filter (fun p => pair_key p = k) (emitting recs).
Proof.
  unfold observations, emitting. rewrite list_filter_filter.
  f_equal. apply list_filter_iff. intros p.
  unfold observed_under, same_patient, pair_key. tauto.
Qed.

Lemma emitting_snoc recs r :
  emitting (recs ++ [r]) =
  emitting recs ++
  match last recs with
  | Some p => if decide (patient p = patient r) then [(p, r)] else []
  | None => []
  end.
Proof.
  unfold emitting. rewrite adjacent_snoc, filter_app.
  destruct (last recs) as [p |]; [| done].
  rewrite filter_cons, filter_nil. unfold same_patient at 2. simpl.
  by destruct (decide (patient p = patient r)).
Qed.

Lemma length_adjacent {A : Type} (l : list A) :
  length (adjacent l) = (length l - 1)%nat.
Proof.
  induction l as [| a [| b l] IH]; [done | done |].
  change (adjacent (a :: b :: l)) with ((a, b) :: adjacent (b :: l)).
  cbn [length] in *. lia.
Qed.

Lemma first_seen_snoc {A : Type} `{EqDecision A} (l : list A) x :
  first_seen (l ++ [x]) =
  if decide (x ∈ l) then first_seen l else first_seen l ++ [x].
Proof.
  induction l as [| a l IH]; cbn [first_seen app].
  - rewrite filter_nil. by rewrite decide_False by apply not_elem_of_nil.
  - rewrite IH. destruct (decide (x ∈ l)) as [I | N].
    + rewrite decide_True; [done |]. apply elem_of_cons. by right.
    + rewrite filter_app, filter_cons, filter_nil.
      destruct (decide (x = a)) as [-> | Na].
      * rewrite (decide_True (P := a ∈ a :: l)) by (apply elem_of_cons; by left).
        rewrite (decide_False (P := a <> a)) by (intros ?; done).
        by rewrite app_nil_r.
      * rewrite (decide_True (P := x <> a)) by done.
        rewrite (decide_False (P := x ∈ a :: l)); [done |].
        rewrite elem_of_cons. intros [? | ?]; done.
Qed.

Lemma elem_of_first_seen {A : Type} `{EqDecision A} (l : list A) x :
  x ∈ first_seen l <-> x ∈ l.
Proof.
  induction l as [| a l IH]; simpl; [done |].
  rewrite !elem_of_cons, list_elem_of_filter, IH.
  destruct (decide (x = a)); tauto.
Qed.

Lemma NoDup_first_seen {A : Type} `{EqDecision A} (l : list A) :
  NoDup (first_seen l).
Proof.
  induction l as [| a l IH]; simpl; [apply NoDup_nil_2 |].
  apply NoDup_cons. split.
  - rewrite list_elem_of_filter. by intros [? _].
  - by apply NoDup_filter.
Qed.

(** The keys after [journey_time_diffs[k].append(x)]. *)
Lemma keys_append_diff (d : journeys) k x :
  Dict.keys (append_diff d k x) =
  if decide (k ∈ Dict.keys d) then Dict.keys d else Dict.keys d ++ [k].
Proof.
  unfold append_diff. destruct (Dict.get d k) as [l |] eqn:G.
  - rewrite keys_set_present by (by rewrite G).
    rewrite decide_True; [done |].
    destruct (decide (k ∈ Dict.keys d)) as [I | N]; [done |].
    apply get_None in N. congruence.
  - rewrite (set_fresh _ _ _ G).
    rewrite decide_False by (by apply get_None).
    unfold Dict.keys. by rewrite fmap_app.
Qed.

Lemma keys_extract recs :
  Dict.keys (extract recs) = first_seen (pair_key <$> emitting recs).
Proof.
  induction recs as [| r recs IH] using rev_ind; [done |].
  rewrite emitting_snoc. unfold extract in *. rewrite extract_run_snoc.
  unfold extract_step; simpl. rewrite previous_run.
  destruct (last recs) as [p |]; [| by rewrite app_nil_r].
  destruct (decide (patient p = patient r)) as [Ep | Np]; [| by rewrite app_nil_r].
  rewrite keys_append_diff, IH, fmap_app. cbn [fmap list_fmap].
  rewrite first_seen_snoc.
  change (pair_key (p, r)) with (description p, description r).
  apply decide_ext. by rewrite elem_of_first_seen.
Qed.

Lemma all_observations_append_diff (d : journeys) k x :
  all_observations (append_diff d k x) ≡ₚ x :: all_observations d.
Proof.
  unfold all_observations, append_diff.
  induction d as [| [k' l] d IH]; [done |].
  cbn [Dict.get Dict.set]. destruct (decide (k' = k)) as [-> | N]; simpl.
  - rewrite <- app_assoc. symmetry. apply Permutation_middle.
  - rewrite IH. symmetry. apply Permutation_middle.
Qed.

(** The observations of the dictionary are, up to their order, the
    observations of the pairs of neighbours of one patient. *)
Lemma all_observations_extract recs :
  all_observations (extract recs) ≡ₚ pair_diff <$> emitting recs.
Proof.
  induction recs as [| r recs IH] using rev_ind; [done |].
  rewrite emitting_snoc. unfold extract in *. rewrite extract_run_snoc.
  unfold extract_step; simpl. rewrite previous_run.
  destruct (last recs) as [p |]; [| by rewrite app_nil_r].
  destruct (decide (patient p = patient r)) as [Ep | Np]; [| by rewrite app_nil_r].
  rewrite all_observations_append_diff, IH, fmap_app. cbn [fmap list_fmap].
  by rewrite <- Permutation_cons_append.
Qed.

Lemma length_read_rows rows recs :
  read_rows rows = Ok recs -> length recs = length rows.
Proof.
  revert recs. induction rows as [| row rows IH]; intros recs; simpl.
  - by intros [= <-].
  - destruct (read_row row) as [cur | e]; simpl; [| done].
    destruct (read_rows rows) as [rest | e]; simpl; [| done].
    intros [= <-]. simpl. f_equal. by apply IH.
Qed.

(** Reading stops at the first row that cannot be read. *)
Lemma read_rows_raise rows e :
  read_rows rows = Raise e <->
  exists good row rest recs,
    rows = good ++ row :: rest /\ read_rows good = Ok recs /\
    read_row row = Raise e.
Proof.
  split.
  - induction rows as [| row rows IH]; simpl; [done |].
    destruct (read_row row) as [cur | e'] eqn:E; simpl.
    + destruct (read_rows rows) as [recs | e''] eqn:R; simpl; [done |].
      intros [= ->]. destruct (IH eq_refl) as (good & row' & rest & recs & -> & G & B).
      exists (row :: good), row', rest, (cur :: recs).
      split; [done |]. split; [| done]. simpl. by rewrite E, G.
    + intros [= ->]. by exists [], row, rows, [].
  - intros (good & row & rest & recs & -> & G & B).
    revert recs G. induction good as [| g good IH]; intros recs G; simpl.
    + by rewrite B.
    + simpl in G. destruct (read_row g) as [cur | e']; simpl in *; [| done].
      destruct (read_rows good) as [recs' | e'']; simpl in *; [| done].
      by rewrite (IH recs' eq_refl).
Qed.

Lemma process_conditions_data_raise rows e :
  process_conditions_data rows = Raise e <-> read_rows rows = Raise e.
Proof.
  rewrite process_conditions_data_read.
  destruct (read_rows rows); simpl; split; congruence.
Qed.

(** An observation is negative exactly when the second start date is
    before the first. *)
Lemma time_diff_sign r1 r2 :
  Datetime.valid (start_date r1) -> Datetime.valid (start_date r2) ->
  (0 <= time_diff r1 r2 <-> Datetime.ge (start_date r2) (start_date r1) = true).
Proof.
  intros V1 V2. rewrite (DatetimeFacts.ge_instant _ _ V2 V1), time_diff_floor.
  unfold Datetime.US_PER_DAY. split; intros H; Z.div_mod_to_equations; lia.
Qed.

Lemma emitting_elem recs a b :
  (a, b) ∈ emitting recs -> patient a = patient b /\ a ∈ recs /\ b ∈ recs.
Proof.
  unfold emitting. rewrite list_elem_of_filter. intros [S I].
  apply adjacent_elem in I. by split.
Qed.

(** An observation of the dictionary comes from a pair of neighbours of
    one patient with the key it is found under, and conversely. *)
Lemma elem_of_get_extract recs k obs x :
  Dict.get (extract recs) k = Some obs ->
  (x ∈ obs <->
   exists p, p ∈ emitting recs /\ pair_key p = k /\ x = pair_diff p).
Proof.
  rewrite get_extract, observations_emitting.
  destruct (pair_diff <$> filter _ (emitting recs)) as [| y l] eqn:E; [done |].
  intros [= <-]. rewrite <- E, list_elem_of_fmap.
  split.
  - intros (p & -> & Hp). apply list_elem_of_filter in Hp as [Hk Hp]. by exists p.
  - intros (p & Hp & Hk & ->). exists p. split; [done |].
    by apply list_elem_of_filter.
Qed.

Lemma emitting_has_key recs p :
  p ∈ emitting recs ->
  exists obs, Dict.get (extract recs) (pair_key p) = Some obs /\ pair_diff p ∈ obs.
Proof.
  intros Hp. rewrite get_extract, observations_emitting.
  assert (pair_diff p ∈
          pair_diff <$> filter (fun q => pair_key q = pair_key p) (emitting recs)) as I.
  { apply list_elem_of_fmap_2. by apply list_elem_of_filter. }
  destruct (pair_diff <$> filter _ (emitting recs)) as [| y l].
  - by apply elem_of_nil in I.
  - by eexists.
Qed.

Lemma adjacent_app {A : Type} (l1 l2 : list A) :
  adjacent (l1 ++ l2) =
  adjacent l1 ++
  match last l1, head l2 with
  | Some a, Some b => [(a, b)]
  | _, _ => []
  end ++ adjacent l2.
Proof.
  induction l1 as [| a [| b l1] IH].
  - done.
  - by destruct l2.
  - change (adjacent ((a :: b :: l1) ++ l2))
      with ((a, b) :: adjacent ((b :: l1) ++ l2)).
    rewrite IH. done.
Qed.

Lemma default_observations (l : list Z) :
  default [] (match l with [] => None | x :: l' => Some (x :: l') end) = l.
Proof. by destruct l. Qed.

(** Two streams one after the other, with a change of patient where they
    meet: the observations of the first, then those of the second. *)
Lemma observations_app_boundary l1 l2 k :
  (forall a b, last l1 = Some a -> head l2 = Some b -> patient a <> patient b) ->
  observations (l1 ++ l2) k = observations l1 k ++ observations l2 k.
Proof.
  intros Hb. unfold observations. rewrite adjacent_app, !filter_app, !fmap_app.
  destruct (last l1) as [a |], (head l2) as [b |]; try done.
  rewrite filter_cons, filter_nil.
  rewrite decide_False; [done |].
  intros [Ep _]. by apply (Hb a b).
Qed.

End ExtractMore.

Module DatetimeMore.
Import Datetime DatetimeFacts.

(** Every date is at most 9999-12-31. *)
Lemma toordinal_max t : valid t -> 1 <= toordinal t <= 3652059.
Proof.
  intros (Hy & Hm & Hd & _). unfold toordinal, ymd2ord.
  pose proof (day_of_year_bounds _ _ _ Hm Hd) as Hdoy.
  pose proof (days_before_year_mono 1 (year t)) as Hlo.
  pose proof (days_before_year_mono (year t + 1) 10000) as Hhi.
  pose proof (days_before_year_succ (year t)).
  change (days_before_year 1) with 0 in Hlo.
  change (days_before_year 10000) with 3652059 in Hhi.
  lia.
Qed.

Lemma days_sub_max t2 t1 :
  valid t2 -> valid t1 -> Z.abs (days (sub t2 t1)) <= 3652059.
Proof.
  intros V2 V1.
  pose proof (toordinal_max _ V2). pose proof (toordinal_max _ V1).
  destruct V2 as (_ & _ & _ & ? & ? & ? & ?).
  destruct V1 as (_ & _ & _ & ? & ? & ? & ?).
  unfold sub, new_timedelta; simpl.
  Z.div_mod_to_equations. lia.
Qed.

(** With the same time of day, the days of a difference are the
    difference of the ordinals. *)
Lemma days_sub_same_time t2 t1 :
  hour t2 = hour t1 -> minute t2 = minute t1 -> second t2 = second t1 ->
  microsecond t2 = microsecond t1 ->
  days (sub t2 t1) = toordinal t2 - toordinal t1.
Proof.
  intros Hh Hm Hs Hu. unfold sub, new_timedelta; simpl.
  rewrite Hh, Hm, Hs, Hu. Z.div_mod_to_equations. lia.
Qed.

End DatetimeMore.

Module IsoMore.
Import Datetime Iso.

Lemma length_list_ascii (text : string) :
  length (String.list_ascii_of_string text) = String.length text.
Proof. induction text as [| c text IH]; simpl; [done | by rewrite IH]. Qed.

(** A text of ten characters is a date: the time of day is midnight. *)
Lemma fromisoformat_date_only text t :
  String.length text = 10%nat -> fromisoformat text = Ok t ->
  hour t = 0 /\ minute t = 0 /\ second t = 0 /\ microsecond t = 0.
Proof.
  intros L. unfold fromisoformat.
  destruct (parse_isoformat_date _) as [[[y m] d] |]; simpl; [| done].
  rewrite drop_ge by (rewrite length_list_ascii; lia).
  unfold build. destruct (validb _); [| done]. by intros [= <-].
Qed.

End IsoMore.

(** X1. The keys of the dictionary that the extractor returns are the
    keys of the pairs of neighbours of one patient, each once, in the
    order in which they are first met in the stream. *)
Theorem keys_in_first_seen_order (rows : list Row) (d : journeys) :
  process_conditions_data rows = Ok d ->
  exists recs,
    read_rows rows = Ok recs /\
    Dict.keys d = first_seen (pair_key <$> emitting recs) /\
    NoDup (Dict.keys d).
Proof.
  rewrite ExtractFacts.process_conditions_data_read.
  destruct (read_rows rows) as [recs | e]; [| done]. simpl.
  intros [= <-]. exists recs. split; [done |].
  rewrite ExtractMore.keys_extract.
  split; [done | apply ExtractMore.NoDup_first_seen].
Qed.

(** The visits A, B, A, B of one patient: the key (A, B), met twice,
    comes once and first. *)
Lemma keys_in_first_seen_order_witness :
  process_conditions_data zigzag_rows = Ok zigzag_transitions /\
  exists recs,
    read_rows zigzag_rows = Ok recs /\
    Dict.keys zigzag_transitions = first_seen (pair_key <$> emitting recs) /\
    NoDup (Dict.keys zigzag_transitions).
Proof.
  assert (process_conditions_data zigzag_rows = Ok zigzag_transitions) as E
    by (by vm_compute).
  split; [exact E |].
  exact (keys_in_first_seen_order zigzag_rows zigzag_transitions E).
Defined.

(** X2. The observations of the dictionary that the extractor returns
    are, up to their order, the differences of the pairs of neighbours of
    one patient: none is lost, none is counted twice, and there are fewer
    of them than rows. *)
Theorem observations_are_neighbour_differences (rows : list Row) (d : journeys) :
  process_conditions_data rows = Ok d ->
  exists recs,
    read_rows rows = Ok recs /\
    all_observations d ≡ₚ pair_diff <$> emitting recs /\
    length (all_observations d) = length (emitting recs) /\
    (length (all_observations d) <= length rows - 1)%nat.
Proof.
  rewrite ExtractFacts.process_conditions_data_read.
  destruct (read_rows rows) as [recs | e] eqn:R; [| done]. simpl.
  intros [= <-]. exists recs. split; [done |].
  pose proof (ExtractMore.all_observations_extract recs) as HP.
  split; [exact HP |].
  assert (length (all_observations (extract recs)) = length (emitting recs)) as L
    by (by rewrite HP, length_fmap).
  split; [exact L |].
  rewrite L. unfold emitting.
  pose proof (length_filter same_patient (adjacent recs)).
  rewrite ExtractMore.length_adjacent, (ExtractMore.length_read_rows _ _ R) in *.
  lia.
Qed.

Lemma observations_are_neighbour_differences_witness :
  process_conditions_data zigzag_rows = Ok zigzag_transitions /\
  exists recs,
    read_rows zigzag_rows = Ok recs /\
    [2; 2; 7] ≡ₚ pair_diff <$> emitting recs /\
    3%nat = length (emitting recs) /\
    (3 <= length zigzag_rows - 1)%nat.
Proof.
  assert (process_conditions_data zigzag_rows = Ok zigzag_transitions) as E
    by (by vm_compute).
  split; [exact E |].
  exact (observations_are_neighbour_differences zigzag_rows zigzag_transitions E).
Defined.


(** X4. Once the rows are read, no observation of the dictionary is
    negative exactly when, in every pair of neighbours of one patient,
    the second start date is not before the first. *)
Theorem nonnegative_iff_in_order (rows : list Row) (recs : list ConditionRecord) :
  read_rows rows = Ok recs ->
  exists d,
    process_conditions_data rows = Ok d /\
    ((forall k obs x, Dict.get d k = Some obs -> x ∈ obs -> 0 <= x) <->
     (forall a b, (a, b) ∈ emitting recs ->
        Datetime.ge (start_date b) (start_date a) = true)).
Proof.
  intros R. exists (extract recs).
  split; [by rewrite ExtractFacts.process_conditions_data_read, R |].
  pose proof (ExtractFacts.read_rows_valid _ _ R) as V.
  rewrite Forall_forall in V.
  split.
  - intros H a b Hab.
    destruct (ExtractMore.emitting_has_key _ _ Hab) as (obs & G & I).
    apply ExtractMore.emitting_elem in Hab as (_ & Ha & Hb).
    apply (ExtractMore.time_diff_sign a b (V _ Ha) (V _ Hb)).
    by apply (H _ _ _ G I).
  - intros H k obs x G Hx.
    apply (ExtractMore.elem_of_get_extract _ _ _ x G) in Hx
      as ([a b] & Hp & _ & ->).
    pose proof (H _ _ Hp) as Hge.
    apply ExtractMore.emitting_elem in Hp as (_ & Ha & Hb).
    by apply (ExtractMore.time_diff_sign a b (V _ Ha) (V _ Hb)).
Qed.

Lemma nonnegative_iff_in_order_witness :
  read_rows out_of_order_rows = Ok [visit_midnight; visit_evening_before] /\
  exists d,
    process_conditions_data out_of_order_rows = Ok d /\
    ((forall k obs x, Dict.get d k = Some obs -> x ∈ obs -> 0 <= x) <->
     (forall a b, (a, b) ∈ emitting [visit_midnight; visit_evening_before] ->
        Datetime.ge (start_date b) (start_date a) = true)).
Proof.
  assert (read_rows out_of_order_rows = Ok [visit_midnight; visit_evening_before])
    as R by (by vm_compute).
  split; [exact R |].
  exact (nonnegative_iff_in_order out_of_order_rows _ R).
Defined.

(** X5. For two rows whose START is a date of ten characters, the
    observation is the number of days from the first date to the second,
    and the two rows in the other order give the opposite number. *)
Theorem date_only_observation (row1 row2 : Row) (r1 r2 : ConditionRecord) :
  read_row row1 = Ok r1 -> read_row row2 = Ok r2 ->
  String.length (START row1) = 10%nat ->
  String.length (START row2) = 10%nat ->
  time_diff r1 r2 =
    Datetime.toordinal (start_date r2) - Datetime.toordinal (start_date r1) /\
  time_diff r2 r1 = - time_diff r1 r2.
Proof.
  unfold read_row. intros R1 R2 L1 L2.
  destruct (Iso.fromisoformat (START row1)) as [t1 |] eqn:E1; simpl in R1; [| done].
  destruct (Iso.fromisoformat (START row2)) as [t2 |] eqn:E2; simpl in R2; [| done].
  injection R1 as <-. injection R2 as <-.
  destruct (IsoMore.fromisoformat_date_only _ _ L1 E1) as (H1 & M1 & S1 & U1).
  destruct (IsoMore.fromisoformat_date_only _ _ L2 E2) as (H2 & M2 & S2 & U2).
  unfold time_diff; cbn [start_date].
  rewrite (DatetimeMore.days_sub_same_time t2 t1) by congruence.
  rewrite (DatetimeMore.days_sub_same_time t1 t2) by congruence.
  lia.
Qed.

Lemma date_only_observation_witness :
  (read_row (mk_row "P1" "A" "2020-01-01") = Ok visit_a /\
   read_row (mk_row "P1" "B" "2020-01-05") = Ok visit_b) /\
  time_diff visit_a visit_b = 737429 - 737425 /\
  time_diff visit_b visit_a = - time_diff visit_a visit_b.
Proof.
  assert (read_row (mk_row "P1" "A" "2020-01-01") = Ok visit_a) as R1
    by (by vm_compute).
  assert (read_row (mk_row "P1" "B" "2020-01-05") = Ok visit_b) as R2
    by (by vm_compute).
  split; [by split |].
  apply (date_only_observation _ _ _ _ R1 R2); reflexivity.
Defined.

(** X6. When a stream is made of two streams one after the other and the
    patient changes where they meet, the list under every key is the
    list of the first stream followed by the list of the second. *)
Theorem streams_compose (l1 l2 : list ConditionRecord) :
  (forall a b, last l1 = Some a -> head l2 = Some b -> patient a <> patient b) ->
  forall k,
    default [] (Dict.get (extract (l1 ++ l2)) k) =
    default [] (Dict.get (extract l1) k) ++ default [] (Dict.get (extract l2) k).
Proof.
  intros Hb k. rewrite !ExtractFacts.get_extract.
  rewrite (ExtractMore.observations_app_boundary _ _ _ Hb).
  by rewrite !ExtractMore.default_observations.
Qed.

Lemma streams_compose_witness :
  (forall a b, last [visit_a; visit_b] = Some a -> head [visit_c] = Some b ->
     patient a <> patient b) /\
  default [] (Dict.get (extract ([visit_a; visit_b] ++ [visit_c])) ("A", "B")%string)
  = [4] ++ [].
Proof.
  assert (forall a b, last [visit_a; visit_b] = Some a -> head [visit_c] = Some b ->
            patient a <> patient b) as Hb.
  { intros a b [= <-] [= <-]. by vm_compute. }
  split; [exact Hb |].
  exact (streams_compose [visit_a; visit_b] [visit_c] Hb ("A", "B")%string).
Defined.



(** ** The aggregator *)

Module AggregateMore.
Import DictFacts AggregateFacts.

Lemma keys_fmap_values {V W : Type} (f : V -> W) (d : list (JourneyKey * V)) :
  Dict.keys (prod_map id f <$> d) = Dict.keys d.
Proof.
  unfold Dict.keys. rewrite <- list_fmap_compose.
  apply list_fmap_ext. by intros i [k v].
Qed.

Lemma sum_range (lo hi : Z) (l : list Z) :
  Forall (fun x => lo <= x <= hi) l ->
  lo * len l <= sum l <= hi * len l.
Proof.
  induction 1 as [| x l Hx _ IH].
  - unfold len, sum; simpl. lia.
  - rewrite sum_cons, len_cons. lia.
Qed.

Lemma sum_app l1 l2 : sum (l1 ++ l2) = sum l1 + sum l2.
Proof.
  induction l1 as [| x l1 IH]; simpl.
  - unfold sum at 2. simpl. lia.
  - rewrite !sum_cons, IH. lia.
Qed.

Lemma sum_concat (ls : list (list Z)) : sum (concat ls) = sum (sum <$> ls).
Proof.
  induction ls as [| l ls IH]; [done |].
  cbn [concat fmap list_fmap]. by rewrite sum_app, sum_cons, IH.
Qed.

End AggregateMore.

(** X8. The aggregator keeps the keys and their order: at every
    position, the dictionary it returns has the key of its input with the
    statistics of the list found there. *)
Theorem aggregator_keeps_keys (d : journeys) (times : times_dict) :
  Dict.wf d ->
  calculate_total_and_average_time d = Ok times ->
  Dict.keys times = Dict.keys d /\
  forall i k obs, d !! i = Some (k, obs) ->
    exists st, times !! i = Some (k, st) /\ total st = sum obs.
Proof.
  intros W E. apply (AggregateFacts.calculate_inv _ _ W) in E as ->.
  split; [apply AggregateMore.keys_fmap_values |].
  intros i k obs Hi. exists (stats obs).
  by rewrite list_lookup_fmap, Hi.
Qed.

Lemma aggregator_keeps_keys_witness :
  (Dict.wf zigzag_transitions /\
   calculate_total_and_average_time zigzag_transitions =
     Ok [ (("A", "B")%string, {| average := PyFloat (4 # 2); total := 4 |});
          (("B", "A")%string, {| average := PyFloat (7 # 1); total := 7 |}) ]) /\
  [ ("A", "B"); ("B", "A") ]%string = Dict.keys zigzag_transitions.
Proof.
  assert (Dict.wf zigzag_transitions) as W
    by (apply (bool_decide_unpack (Dict.wf zigzag_transitions)); by vm_compute).
  assert (calculate_total_and_average_time zigzag_transitions =
     Ok [ (("A", "B")%string, {| average := PyFloat (4 # 2); total := 4 |});
          (("B", "A")%string, {| average := PyFloat (7 # 1); total := 7 |}) ]) as E
    by (by vm_compute).
  split; [by split |].
  destruct (aggregator_keeps_keys _ _ W E) as [K _]. exact K.
Defined.



(** ** The diagram model *)

Module SankeyMore.
Import SankeyFacts.

(** The link at the position of a key. *)
Lemma link_at journey_data m i f t data :
  built journey_data m ->
  journey_data !! i = Some ((f, t), data) ->
  exists s t',
    links m !! i = Some (mk_link s t' (total data)) /\
    labels m !! s = Some f /\ labels m !! t' = Some t.
Proof.
  intros [_ HS HT HV _] Hi.
  destruct (Forall2_lookup_l _ _ _ i _ HS Hi) as (s & Hs & Ls).
  destruct (Forall2_lookup_l _ _ _ i _ HT Hi) as (t' & Ht & Lt).
  assert (value m !! i = Some (total data)) as Hv
    by (by rewrite HV, list_lookup_fmap, Hi).
  exists s, t'. split; [by apply zip_links_lookup | done].
Qed.

Lemma built_NoDup journey_data m : built journey_data m -> NoDup (labels m).
Proof. intros [[-> _] _ _ _ _]. apply NoDup_first_occurrences. Qed.

Lemma length_first_occurrences l :
  (length (first_occurrences l) <= length l)%nat.
Proof.
  induction l as [| x l IH]; simpl; [done |].
  pose proof (length_filter (fun y => y <> x) (first_occurrences l)). lia.
Qed.

Lemma length_endpoints items : length (endpoints items) = (2 * length items)%nat.
Proof.
  induction items as [| [[f t] d] items IH]; simpl; [done |]. lia.
Qed.

Lemma endpoints_keys items items' :
  Dict.keys items = Dict.keys items' -> endpoints items = endpoints items'.
Proof.
  revert items'. induction items as [| [[f t] d] items IH];
    intros [| [[f' t'] d'] items']; simpl; try done.
  intros [= -> -> H]. by rewrite (IH items').
Qed.

(** *** The loop only adds at the end *)

Lemma sankey_step_extends i item st st' :
  sankey_step i item st = Ok st' ->
  labels st `prefix_of` labels st' /\ source st `prefix_of` source st' /\
  target st `prefix_of` target st' /\ value st `prefix_of` value st' /\
  colors st `prefix_of` colors st'.
Proof.
  destruct item as [[f t] data]. unfold sankey_step. cbn [foldl].
  set (st1 := add_label st f). set (st2 := add_label st1 t).
  destruct (add_label_fields st f) as (Es1 & Et1 & Ev1 & Ec1).
  destruct (add_label_fields st1 t) as (Es2 & Et2 & Ev2 & Ec2).
  destruct (add_label_grows st f) as [n1 E1].
  destruct (add_label_grows st1 t) as [n2 E2].
  fold st1 in Es1, Et1, Ev1, Ec1, E1. fold st2 in Es2, Et2, Ev2, Ec2, E2.
  destruct (label_map st2 !! f) as [s |]; [| done].
  destruct (label_map st2 !! t) as [t' |]; [| done].
  destruct (color_palette !! _) as [c |]; [| done].
  cbn [of_option bind]. intros [= <-]. cbn [labels source target value colors].
  rewrite Es2, Es1, Et2, Et1, Ev2, Ev1, Ec2, Ec1, E2, E1.
  split; [exists (n1 ++ n2); by rewrite app_assoc |].
  repeat split; by eexists.
Qed.

Lemma sankey_loop_extends i items st st' :
  sankey_loop i items st = Ok st' ->
  labels st `prefix_of` labels st' /\ source st `prefix_of` source st' /\
  target st `prefix_of` target st' /\ value st `prefix_of` value st' /\
  colors st `prefix_of` colors st'.
Proof.
  revert i st. induction items as [| item items IH]; intros i st; cbn [sankey_loop].
  - by intros [= <-].
  - destruct (sankey_step i item st) as [st1 |] eqn:E1; [| done]. cbn [bind].
    intros E. apply sankey_step_extends in E1 as (L1 & S1 & T1 & V1 & C1).
    apply IH in E as (L & S & T & V & C).
    repeat split; by etrans.
Qed.

Lemma sankey_loop_app i items more st :
  sankey_loop i (items ++ more) st =
  let* st' := sankey_loop i items st in
  sankey_loop (i + length items) more st'.
Proof.
  revert i st. induction items as [| item items IH]; intros i st; cbn [sankey_loop app].
  - cbn [bind length]. by rewrite Nat.add_0_r.
  - destruct (sankey_step i item st) as [st1 |]; [| done]. cbn [bind].
    rewrite IH. cbn [length]. by rewrite Nat.add_succ_r.
Qed.

Lemma zip_links_app s t v s' t' v' :
  length t = length s -> length v = length s ->
  zip_links (s ++ s') (t ++ t') (v ++ v') = zip_links s t v ++ zip_links s' t' v'.
Proof.
  revert t v. induction s as [| a s IH]; intros [| b t] [| x v]; simpl; try done.
  intros [= Ht] [= Hv]. f_equal. by apply IH.
Qed.

Lemma built_lengths journey_data m :
  built journey_data m ->
  length (source m) = length journey_data /\
  length (target m) = length journey_data /\
  length (value m) = length journey_data /\
  length (colors m) = length journey_data.
Proof.
  intros [_ HS HT HV HC].
  apply Forall2_length in HS, HT, HC. rewrite length_seq in HC.
  rewrite HV, length_fmap. done.
Qed.

(** *** The statistics do not matter for the indices and the colours *)

Lemma add_label_shape st st' x :
  same_shape st st' -> same_shape (add_label st x) (add_label st' x).
Proof.
  intros (L & S & T & C & M). unfold add_label. rewrite <- M.
  destruct (label_map st !! x); [done |].
  unfold same_shape; simpl. by rewrite L, S, T, C, M.
Qed.

Lemma sankey_step_shape i k data data' st st' s1 s1' :
  same_shape st st' ->
  sankey_step i (k, data) st = Ok s1 ->
  sankey_step i (k, data') st' = Ok s1' ->
  same_shape s1 s1'.
Proof.
  intros H. destruct k as [f t]. unfold sankey_step. cbn [foldl].
  pose proof (add_label_shape _ _ t (add_label_shape _ _ f H))
    as (L & S & T & C & M).
  rewrite <- M.
  destruct (label_map (add_label (add_label st f) t) !! f) as [s |]; [| done].
  destruct (label_map (add_label (add_label st f) t) !! t) as [t' |]; [| done].
  destruct (color_palette !! _) as [c |]; [| done].
  cbn [of_option bind]. intros [= <-] [= <-].
  unfold same_shape; simpl. by rewrite L, S, T, C, M.
Qed.

Lemma sankey_loop_shape i items items' st st' m m' :
  Dict.keys items = Dict.keys items' ->
  same_shape st st' ->
  sankey_loop i items st = Ok m ->
  sankey_loop i items' st' = Ok m' ->
  same_shape m m'.
Proof.
  revert i items' st st'. induction items as [| [k data] items IH];
    intros i [| [k' data'] items'] st st'; cbn [sankey_loop]; try done.
  - by intros _ H [= <-] [= <-].
  - intros [= <- K] H.
    destruct (sankey_step i (k, data) st) as [s1 |] eqn:E1; [| done].
    destruct (sankey_step i (k, data') st') as [s1' |] eqn:E1'; [| done].
    cbn [bind]. apply (IH _ _ _ _ K). by eapply sankey_step_shape.
Qed.

End SankeyMore.

(** X10. Two ends of links have the same index exactly when they are
    the same description: the sources of two links, their targets, or the
    source of one and the target of the other; in particular a link goes
    from a node to itself exactly when its key is a pair (c, c). *)
Theorem indices_agree_iff_descriptions (journey_data : times_dict) :
  exists m,
    create_sankey_diagram journey_data = Ok m /\
    forall i j fi ti di fj tj dj,
      journey_data !! i = Some ((fi, ti), di) ->
      journey_data !! j = Some ((fj, tj), dj) ->
      exists li lj,
        links m !! i = Some li /\ links m !! j = Some lj /\
        (link_source li = link_source lj <-> fi = fj) /\
        (link_target li = link_target lj <-> ti = tj) /\
        (link_source li = link_target lj <-> fi = tj).
Proof.
  destruct (SankeyFacts.create_sankey_diagram_built journey_data) as (m & E & B).
  exists m. split; [exact E |].
  intros i j fi ti di fj tj dj Hi Hj.
  destruct (SankeyMore.link_at _ _ _ _ _ _ B Hi) as (si & ti' & Li & Si & Ti).
  destruct (SankeyMore.link_at _ _ _ _ _ _ B Hj) as (sj & tj' & Lj & Sj & Tj).
  pose proof (SankeyMore.built_NoDup _ _ B) as N.
  eexists _, _. split; [exact Li |]. split; [exact Lj |]. simpl.
  repeat split.
  - intros ->. congruence.
  - intros ->. by eapply NoDup_lookup.
  - intros ->. congruence.
  - intros ->. by eapply NoDup_lookup.
  - intros ->. congruence.
  - intros ->. by eapply NoDup_lookup.
Qed.

(** X11. The diagram has at most two labels per key, at least one label
    when there is a key, and, the keys of a dictionary being distinct, no
    more keys than pairs of labels. *)
Theorem labels_and_keys (journey_data : times_dict) :
  exists m,
    create_sankey_diagram journey_data = Ok m /\
    (length (labels m) <= 2 * length journey_data)%nat /\
    (journey_data <> [] -> 1 <= length (labels m))%nat /\
    (Dict.wf journey_data ->
     length journey_data <= length (labels m) * length (labels m))%nat.
Proof.
  destruct (SankeyFacts.create_sankey_diagram_built journey_data) as (m & E & B).
  exists m. split; [exact E |].
  pose proof B as [[HL _] _ _ _ _].
  split.
  { rewrite HL, <- SankeyMore.length_endpoints.
    apply SankeyMore.length_first_occurrences. }
  split.
  { destruct journey_data as [| [[f t] d] jd]; [done |]. intros _.
    rewrite HL. simpl. lia. }
  intros W.
  assert (Dict.keys journey_data ⊆+ cprod (labels m) (labels m)) as Sub.
  { apply NoDup_submseteq; [exact W |]. intros [f t] Hk.
    apply list_elem_of_fmap in Hk as ([k data] & Ek & Hk). simpl in Ek. subst k.
    apply list_elem_of_cprod. simpl.
    rewrite HL, !SankeyFacts.elem_of_first_occurrences, !SankeyFacts.endpoints_elem.
    split; exists ((f, t), data); simpl; tauto. }
  apply submseteq_length in Sub.
  unfold Dict.keys in Sub.
  rewrite length_fmap, list_cprod_list_prod, length_prod in Sub. exact Sub.
Qed.

(** X12. Keys added after the others leave what the others gave as it
    is: the labels, the links and the colours of the shorter dictionary
    open those of the longer one. *)
Theorem appended_keys_keep_links (journey_data more : times_dict) :
  exists m m',
    create_sankey_diagram journey_data = Ok m /\
    create_sankey_diagram (journey_data ++ more) = Ok m' /\
    labels m `prefix_of` labels m' /\
    links m `prefix_of` links m' /\
    colors m `prefix_of` colors m'.
Proof.
  destruct (SankeyFacts.create_sankey_diagram_built journey_data) as (m & E & B).
  destruct (SankeyFacts.create_sankey_diagram_built (journey_data ++ more))
    as (m' & E' & _).
  exists m, m'. split; [exact E |]. split; [exact E' |].
  unfold create_sankey_diagram in E, E'.
  rewrite SankeyMore.sankey_loop_app, E in E'. cbn [bind] in E'.
  apply SankeyMore.sankey_loop_extends in E'
    as (L & [ks S] & [kt T] & [kv V] & C).
  split; [exact L |]. split; [| exact C].
  destruct (SankeyMore.built_lengths _ _ B) as (LS & LT & LV & _).
  unfold links. rewrite S, T, V.
  rewrite SankeyMore.zip_links_app by congruence.
  by eexists.
Qed.

(** X13. The labels, the indices of the links and the colours depend on
    the keys and their order only: two dictionaries with the same keys
    in the same order differ at most in the values of the links. *)
Theorem shape_depends_on_keys (journey_data journey_data' : times_dict) :
  Dict.keys journey_data = Dict.keys journey_data' ->
  exists m m',
    create_sankey_diagram journey_data = Ok m /\
    create_sankey_diagram journey_data' = Ok m' /\
    labels m = labels m' /\ source m = source m' /\
    target m = target m' /\ colors m = colors m'.
Proof.
  intros K.
  destruct (SankeyFacts.create_sankey_diagram_built journey_data) as (m & E & _).
  destruct (SankeyFacts.create_sankey_diagram_built journey_data') as (m' & E' & _).
  exists m, m'. split; [exact E |]. split; [exact E' |].
  assert (same_shape sankey_init sankey_init) as H0 by done.
  destruct (SankeyMore.sankey_loop_shape _ _ _ _ _ _ _ K H0 E E')
    as (L & S & T & C & _).
  done.
Qed.

Lemma shape_depends_on_keys_witness :
  Dict.keys scenario_stats = Dict.keys other_stats /\
  exists m m',
    create_sankey_diagram scenario_stats = Ok m /\
    create_sankey_diagram other_stats = Ok m' /\
    labels m = labels m' /\ source m = source m' /\
    target m = target m' /\ colors m = colors m'.
Proof.
  assert (Dict.keys scenario_stats = Dict.keys other_stats) as K by reflexivity.
  split; [exact K |].
  exact (shape_depends_on_keys scenario_stats other_stats K).
Defined.

(** X14. In the figure the nodes are given the list of the colours of
    the links: node [j] has the colour [j mod 7] of the palette when [j]
    is below the number of keys and no colour otherwise, while there are
    as many nodes as labels, up to twice the number of keys. *)
Theorem node_colors_are_link_colors (journey_data : times_dict) :
  exists m,
    create_sankey_diagram journey_data = Ok m /\
    node_color (sankey_figure m) = link_colors (sankey_figure m) /\
    length (node_color (sankey_figure m)) = length journey_data /\
    (forall j,
       node_color (sankey_figure m) !! j =
       if decide (j < length journey_data)%nat
       then color_palette !! (j mod 7)%nat else None) /\
    length (node_label (sankey_figure m)) =
      size (list_to_set (endpoints journey_data) : gset string) /\
    (length (node_label (sankey_figure m))
     <= 2 * length (node_color (sankey_figure m)))%nat.
Proof.
  destruct (SankeyFacts.create_sankey_diagram_built journey_data) as (m & E & B).
  exists m. split; [exact E |]. cbn [sankey_figure node_color link_colors node_label].
  destruct (SankeyMore.built_lengths _ _ B) as (_ & _ & _ & LC).
  pose proof B as [[HL _] _ _ _ HC].
  split; [done |]. split; [exact LC |]. split.
  { intros j. destruct (decide (j < length journey_data)%nat) as [Lt | Ge].
    - destruct (Forall2_lookup_l _ _ _ j j HC) as (c & Hc & Hp).
      { by apply lookup_seq_lt. }
      by rewrite Hc, Hp.
    - apply lookup_ge_None. lia. }
  split; [rewrite HL; apply SankeyFacts.size_first_occurrences |].
  rewrite LC, HL, <- SankeyMore.length_endpoints.
  apply SankeyMore.length_first_occurrences.
Qed.

(** ** The whole script *)

Module MainFacts.
Import ExtractFacts ExtractMore AggregateFacts AggregateMore SankeyFacts SankeyMore.

(** The only thing that reading a row raises is the ValueError of
    [fromisoformat]. *)
Lemma read_row_raise row e : read_row row = Raise e -> e = ValueError.
Proof.
  unfold read_row, Iso.fromisoformat, Iso.build.
  destruct (Iso.parse_isoformat_date _) as [[[y m] d] |]; simpl; [| congruence].
  destruct (drop 10 _).
  - destruct (Datetime.validb _); simpl; congruence.
  - destruct (Iso.parse_isoformat_time _) as [[[[h mi] sec] us] |]; simpl;
      [| congruence].
    destruct (Datetime.validb _); simpl; congruence.
Qed.

(** Once the rows are read, the three steps return, and the diagram is
    the diagram of the statistics of the dictionary of the records. *)
Lemma main_read rows recs :
  read_rows rows = Ok recs ->
  exists m,
    main rows = Ok m /\
    calculate_total_and_average_time (extract recs) =
      Ok (prod_map id stats <$> extract recs) /\
    create_sankey_diagram (prod_map id stats <$> extract recs) = Ok m /\
    built (prod_map id stats <$> extract recs) m.
Proof.
  intros R. unfold main. rewrite process_conditions_data_read, R. cbn [bind].
  destruct (calculate_ok (extract recs)) as [times E].
  { apply extract_day_lists. by eapply read_rows_valid. }
  pose proof (calculate_inv _ _ (wf_extract_run recs) E) as ->.
  rewrite E. cbn [bind].
  destruct (create_sankey_diagram_built (prod_map id stats <$> extract recs))
    as (m & Em & B).
  by exists m.
Qed.

Lemma main_raise rows e : main rows = Raise e <-> read_rows rows = Raise e.
Proof.
  destruct (read_rows rows) as [recs | e'] eqn:R.
  - destruct (main_read _ _ R) as (m & -> & _). split; congruence.
  - unfold main. rewrite process_conditions_data_read, R. cbn [bind].
    split; congruence.
Qed.

Lemma read_rows_app_inv rows more recs' :
  read_rows (rows ++ more) = Ok recs' ->
  exists recs post,
    read_rows rows = Ok recs /\ read_rows more = Ok post /\ recs' = recs ++ post.
Proof.
  revert recs'. induction rows as [| row rows IH]; intros recs'; simpl.
  - intros R. by exists [], recs'.
  - destruct (read_row row) as [cur | e]; simpl; [| done].
    destruct (read_rows (rows ++ more)) as [rest | e] eqn:R; simpl; [| done].
    intros [= <-]. destruct (IH _ eq_refl) as (recs & post & -> & Rm & ->).
    by exists (cur :: recs), post.
Qed.

Lemma first_seen_prefix {A : Type} `{EqDecision A} (l more : list A) :
  first_seen l `prefix_of` first_seen (l ++ more).
Proof.
  induction more as [| x more IH] using rev_ind.
  - by rewrite app_nil_r.
  - rewrite app_assoc, first_seen_snoc. case_decide; [done |].
    by apply prefix_app_r.
Qed.

Lemma emitting_prefix recs post : emitting recs `prefix_of` emitting (recs ++ post).
Proof.
  unfold emitting. rewrite adjacent_app, filter_app. by eexists.
Qed.

(** Later records leave the keys met so far where they are. *)
Lemma keys_extract_prefix recs post :
  Dict.keys (extract recs) `prefix_of` Dict.keys (extract (recs ++ post)).
Proof.
  rewrite !keys_extract. destruct (emitting_prefix recs post) as [rest ->].
  rewrite fmap_app. apply first_seen_prefix.
Qed.

(** The sum of the values of the links is the sum of all observations. *)
Lemma sum_values (d : journeys) m :
  built (prod_map id stats <$> d) m -> sum (value m) = sum (all_observations d).
Proof.
  intros [_ _ _ HV _]. rewrite HV. unfold all_observations.
  by rewrite sum_concat, <- !list_fmap_compose.
Qed.

End MainFacts.

(** X15. Once the rows are read, the values of the links add up to the
    sum of the differences, in days, of all the pairs of neighbours of
    one patient. *)
Theorem link_values_add_up (rows : list Row) (recs : list ConditionRecord) :
  read_rows rows = Ok recs ->
  exists m,
    main rows = Ok m /\
    sum (value m) = sum (pair_diff <$> emitting recs).
Proof.
  intros R. destruct (MainFacts.main_read _ _ R) as (m & E & _ & _ & B).
  exists m. split; [exact E |].
  rewrite (MainFacts.sum_values _ _ B).
  apply AggregateFacts.sum_Permutation, ExtractMore.all_observations_extract.
Qed.

(** The visits A, B, A, B on the days 1, 3, 10 and 12 of January: the
    values add up to 2 + 7 + 2. *)
Lemma link_values_add_up_witness :
  read_rows zigzag_rows = Ok zigzag_records /\
  exists m, main zigzag_rows = Ok m /\ sum (value m) = 11.
Proof.
  assert (read_rows zigzag_rows = Ok zigzag_records) as R by (by vm_compute).
  split; [exact R |].
  exact (link_values_add_up zigzag_rows zigzag_records R).
Defined.


(** X17. What [main] returns, read off the rows: there is one link per
    distinct key of the pairs of neighbours of one patient, in the order
    in which the keys are first met; the link of a key carries the sum of
    the observations of the pairs with that key, and goes from the label
    of its first description to the label of its second. *)
Theorem main_links (rows : list Row) (recs : list ConditionRecord) :
  read_rows rows = Ok recs ->
  exists m,
    main rows = Ok m /\
    length (links m) = length (first_seen (pair_key <$> emitting recs)) /\
    forall i k,
      first_seen (pair_key <$> emitting recs) !! i = Some k ->
      exists l,
        links m !! i = Some l /\
        link_value l =
          sum (pair_diff <$> filter (fun p => pair_key p = k) (emitting recs)) /\
        labels m !! link_source l = Some k.1 /\
        labels m !! link_target l = Some k.2.
Proof.
  intros R. destruct (MainFacts.main_read _ _ R) as (m & E & _ & _ & B).
  exists m. split; [exact E |].
  rewrite <- ExtractMore.keys_extract.
  destruct (SankeyMore.built_lengths _ _ B) as (LS & LT & LV & _).
  split.
  { unfold links, Dict.keys.
    rewrite SankeyFacts.zip_links_length by congruence.
    by rewrite LS, !length_fmap. }
  intros i [f t] Hi. unfold Dict.keys in Hi.
  rewrite list_lookup_fmap in Hi.
  destruct (extract recs !! i) as [[k obs] |] eqn:Hd; [| done].
  simpl in Hi. injection Hi as ->.
  pose proof (DictFacts.get_lookup _ _ _ _ (ExtractFacts.wf_extract_run recs) Hd) as G.
  change (journey_time_diffs (extract_run recs)) with (extract recs) in G.
  rewrite ExtractFacts.get_extract, ExtractMore.observations_emitting in G.
  assert ((prod_map id stats <$> extract recs) !! i = Some ((f, t), stats obs)) as Ht
    by (by rewrite list_lookup_fmap, Hd).
  destruct (SankeyMore.link_at _ _ _ _ _ _ B Ht) as (s & t' & Hl & Hs & Ht').
  eexists. split; [exact Hl |]. simpl. split; [| done].
  destruct (pair_diff <$> filter _ (emitting recs)); [done |]. by injection G as <-.
Qed.

(** The visits A, B, A, B: the link of (A, B), then the link of (B, A). *)
Lemma main_links_witness :
  read_rows zigzag_rows = Ok zigzag_records /\
  exists m,
    main zigzag_rows = Ok m /\
    length (links m) = 2%nat /\
    labels m = [ "A"; "B" ]%string /\
    links m = [ mk_link 0 1 4; mk_link 1 0 7 ].
Proof.
  assert (read_rows zigzag_rows = Ok zigzag_records) as R by (by vm_compute).
  split; [exact R |].
  destruct (main_links zigzag_rows zigzag_records R) as (m & E & L & _).
  exists m. split; [exact E |]. split; [exact L |].
  vm_compute in E. injection E as <-. by vm_compute.
Defined.

(** X18. Rows added at the end of the file leave the nodes and the links
    that the rows before them gave where they are: the labels, the
    sources, the targets and the colours of the shorter file open those
    of the longer one (the values of the links may grow). *)
Theorem appended_rows_keep_indices
    (rows more : list Row) (recs' : list ConditionRecord) :
  read_rows (rows ++ more) = Ok recs' ->
  exists m m',
    main rows = Ok m /\
    main (rows ++ more) = Ok m' /\
    labels m `prefix_of` labels m' /\
    source m `prefix_of` source m' /\
    target m `prefix_of` target m' /\
    colors m `prefix_of` colors m'.
Proof.
  intros R'.
  destruct (MainFacts.read_rows_app_inv _ _ _ R') as (recs & post & R & _ & ->).
  destruct (MainFacts.main_read _ _ R) as (m & E & _ & Em & _).
  destruct (MainFacts.main_read _ _ R') as (m' & E' & _ & Em' & _).
  exists m, m'. split; [exact E |]. split; [exact E' |].
  set (jd := prod_map id stats <$> extract recs) in *.
  set (jd' := prod_map id stats <$> extract (recs ++ post)) in *.
  destruct (MainFacts.keys_extract_prefix recs post) as [extra K].
  assert (Dict.keys jd = Dict.keys (take (length jd) jd')) as Kt.
  { pose proof (AggregateMore.keys_fmap_values stats (extract recs)) as K1.
    pose proof (AggregateMore.keys_fmap_values stats (extract (recs ++ post))) as K2.
    unfold jd, jd', Dict.keys in *.
    rewrite fmap_take, K1, K2, K, length_fmap.
    rewrite <- (length_fmap fst (extract recs)). by rewrite take_app_length. }
  rewrite <- (take_drop (length jd) jd') in Em'.
  unfold create_sankey_diagram in Em, Em'.
  rewrite SankeyMore.sankey_loop_app in Em'.
  destruct (sankey_loop 0 (take (length jd) jd') sankey_init) as [m2 |] eqn:E2;
    [| done].
  cbn [bind] in Em'.
  assert (same_shape sankey_init sankey_init) as H0 by done.
  destruct (SankeyMore.sankey_loop_shape _ _ _ _ _ _ _ Kt H0 Em E2)
    as (L & S & T & C & _).
  apply SankeyMore.sankey_loop_extends in Em' as (L' & S' & T' & _ & C').
  by rewrite L, S, T, C.
Qed.

(** The first two rows of the scenario, then the other two. *)
Lemma appended_rows_keep_indices_witness :
  read_rows (take 2 scenario_rows ++ drop 2 scenario_rows) = Ok scenario_records /\
  exists m m',
    main (take 2 scenario_rows) = Ok m /\
    main (take 2 scenario_rows ++ drop 2 scenario_rows) = Ok m' /\
    labels m `prefix_of` labels m' /\
    source m `prefix_of` source m' /\
    target m `prefix_of` target m' /\
    colors m `prefix_of` colors m'.
Proof.
  assert (read_rows (take 2 scenario_rows ++ drop 2 scenario_rows) =
            Ok scenario_records) as R by (by vm_compute).
  split; [exact R |].
  exact (appended_rows_keep_indices (take 2 scenario_rows) (drop 2 scenario_rows)
           scenario_records R).
Defined.

(** X19. An observation is the number of whole days that have gone by
    from the first start date to the second, rounded towards minus
    infinity: the time from the one to the other is at least that many
    days and less than one day more. *)
Theorem observation_is_floor_of_elapsed_days (r1 r2 : ConditionRecord) :
  Datetime.US_PER_DAY * time_diff r1 r2
    <= Datetime.instant (start_date r2) - Datetime.instant (start_date r1)
    < Datetime.US_PER_DAY * (time_diff r1 r2 + 1) /\
  Datetime.to_microseconds (Datetime.sub (start_date r2) (start_date r1)) =
    Datetime.instant (start_date r2) - Datetime.instant (start_date r1).
Proof.
  split; [| apply DatetimeFacts.to_microseconds_sub].
  rewrite ExtractFacts.time_diff_floor. unfold Datetime.US_PER_DAY.
  Z.div_mod_to_equations. lia.
Qed.
